(** * photutils.datasets.make: synthetic images from parametric models

    A shallow embedding of [photutils/datasets/make.py] and the properties
    of its renderer, Gaussian adapter, random table generator and Poisson
    noise routine.

    Conventions of the embedding:
    - a float64 is a primitive binary64 [float];
    - a numpy array is a shape with its elements in row-major order;
    - an astropy [Table] is the ordered list of its named columns;
    - a model is an astropy model: the finite map of its parameter values,
      [param_names] being the set of its keys; [setattr] replaces the value
      of a parameter, and [getattr] gives the [Parameter] object, which
      keeps no value of its own and reads the model each time it is used;
    - a Python [dict] is an association list in insertion order, the order
      in which [items()] yields it;
    - a raised exception is tagged with the place that raised it: a
      statement of the function itself ([Here]) or a call into numpy,
      astropy or the random generator ([Inside]). *)

From Stdlib Require Import ZArith Floats.PrimFloat Uint63.
From stdpp Require Import base option list gmap strings pretty.

Local Open Scope Z_scope.

(** ** Exceptions and results *)

Inductive pyexc : Type :=
  | ValueError (msg : string)
  | TypeError (msg : string)
  | KeyError (key : string)
  | IndexError (msg : string)
  | AttributeError (msg : string)
  | UnboundLocalError (name : string).

Inductive raised : Type :=
  | Here (e : pyexc)
  | Inside (callee : string) (e : pyexc).

Inductive result (A : Type) : Type :=
  | Ok (a : A)
  | Err (r : raised).
Arguments Ok {A} a.
Arguments Err {A} r.

Definition bind {A B} (r : result A) (k : A → result B) : result B :=
  match r with
  | Ok a => k a
  | Err e => Err e
  end.

Notation "'let?' x := e 'in' k" := (bind e (λ x, k))
  (at level 10, x pattern, e at level 100, k at level 200,
   format "'[v' 'let?'  x  :=  e  'in' '/' k ']'").

(** The outcome of a call into a collaborator, as the caller sees it. *)
Definition calling {A} (callee : string) (r : pyexc + A) : result A :=
  match r with
  | inl e => Err (Inside callee e)
  | inr a => Ok a
  end.

Definition is_ok {A} (r : result A) : bool :=
  match r with Ok _ => true | Err _ => false end.

(** The quotation mark, for the messages and templates that hold one. *)
Definition dquote : string := String (Ascii.ascii_of_nat 34) EmptyString.

(** ** Association lists: table columns and dict items *)

Section Assoc.
Context {V : Type}.

Fixpoint assoc (k : string) (l : list (string * V)) : option V :=
  match l with
  | [] => None
  | (k', v) :: l' => if decide (k' = k) then Some v else assoc k l'
  end.

(** [d[k] = v]: an existing key keeps its place, a new one goes last. *)
Fixpoint assoc_set (k : string) (v : V) (l : list (string * V))
  : list (string * V) :=
  match l with
  | [] => [(k, v)]
  | (k', v') :: l' =>
      if decide (k' = k) then (k, v) :: l' else (k', v') :: assoc_set k v l'
  end.

(** [del d[k]] *)
Fixpoint assoc_del (k : string) (l : list (string * V)) : list (string * V) :=
  match l with
  | [] => []
  | (k', v') :: l' =>
      if decide (k' = k) then l' else (k', v') :: assoc_del k l'
  end.
End Assoc.

(** ** numpy arrays *)

Record ndarray (A : Type) : Type := NdArray { shape : list Z; data : list A }.
Arguments NdArray {A} shape data.
Arguments shape {A} _.
Arguments data {A} _.

Module np.

Definition pi : float := 0x1.921fb54442d18p+1%float.

(** Number of elements of an array of the given shape. *)
Definition size (dims : list Z) : Z := foldr Z.mul 1 dims.

(** The multi-index of the [f]-th element in row-major order. *)
Fixpoint unravel (dims : list Z) (f : Z) : list Z :=
  match dims with
  | [] => []
  | d :: dims' => (f / size dims') `mod` d :: unravel dims' f
  end.

Fixpoint ravel (dims idx : list Z) : Z :=
  match dims, idx with
  | _ :: dims', i :: idx' => i * size dims' + ravel dims' idx'
  | _, _ => 0
  end.

(** What [image_shape] may be bound to: a tuple of ints, or an array. *)
Inductive shape_arg : Type :=
  | Shape (dims : list Z)
  | Array (a : ndarray float).

(** How numpy reads an argument as a shape.  A tuple of ints is taken as
    it is.  An array is read as the sequence of its items along the first
    axis, and an item of a float64 array (a float, or a sub-array) is no
    integer; only an array that is empty along its first axis reads as the
    empty shape. *)
Definition as_dims (callee : string) (s : shape_arg) : result (list Z) :=
  match s with
  | Shape dims => Ok dims
  | Array a =>
      match shape a with
      | 0 :: _ => Ok []
      | _ => Err (Inside callee
               (TypeError "expected a sequence of integers or a single integer"))
      end
  end.

(** [np.zeros(shape, dtype=np.float64)] *)
Definition zeros (s : shape_arg) : result (ndarray float) :=
  let? dims := as_dims "numpy.zeros" s in
  if forallb (Z.leb 0) dims
  then Ok (NdArray dims (replicate (Z.to_nat (size dims)) 0%float))
  else Err (Inside "numpy.zeros"
              (ValueError "negative dimensions are not allowed")).

(** [np.indices(dimensions)]: one index grid per dimension; iterating over
    the result yields the grids in turn. *)
Definition index_grid (dims : list Z) (axis : nat) : ndarray Z :=
  NdArray dims
    ((λ f, default 0 (unravel dims f !! axis)) <$> seqZ 0 (size dims)).

Definition indices (s : shape_arg) : result (list (ndarray Z)) :=
  let? dims := as_dims "numpy.indices" s in
  Ok (index_grid dims <$> seq 0 (length dims)).

(** [b] broadcasts to the shape [a]: aligned at the last axis, each of its
    dimensions is 1 or the dimension of [a]. *)
Fixpoint broadcasts_rev (b a : list Z) : bool :=
  match b, a with
  | [], _ => true
  | db :: b', da :: a' =>
      (bool_decide (db = da) || bool_decide (db = 1)) && broadcasts_rev b' a'
  | _ :: _, [] => false
  end.

Definition broadcasts (b a : list Z) : bool :=
  broadcasts_rev (reverse b) (reverse a).

(** The element of [b] that is added to the [f]-th element of an array
    of shape [dims]. *)
Definition broadcast_get (b : ndarray float) (dims : list Z) (f : Z) : float :=
  let idx := drop (length dims - length (shape b)) (unravel dims f) in
  let idx := zip_with (λ d i, if bool_decide (d = 1) then 0 else i)
               (shape b) idx in
  default 0%float (data b !! Z.to_nat (ravel (shape b) idx)).

(** [a += b] *)
Definition iadd (a b : ndarray float) : result (ndarray float) :=
  if broadcasts (shape b) (shape a)
  then Ok (NdArray (shape a)
             (imap (λ f x, (x + broadcast_get b (shape a) (Z.of_nat f))%float)
                (data a)))
  else Err (Inside "numpy.add"
              (ValueError "operands could not be broadcast together")).

(** [np.any(data < 0)] *)
Definition any_negative (a : ndarray float) : bool :=
  existsb (λ x, (x <? 0)%float) (data a).

End np.

(** [y, x = grids]: unpacking into exactly two targets. *)
Definition unpack2 {A} (l : list A) : result (A * A) :=
  match l with
  | [y; x] => Ok (y, x)
  | [] | [_] =>
      Err (Here (ValueError
        ("not enough values to unpack (expected 2, got "
           +:+ pretty (length l) +:+ ")")))
  | _ => Err (Here (ValueError "too many values to unpack (expected 2)"))
  end.

(** ** Tables and models *)

(** A table: its columns in order, each a name with one value per row. *)
Abbreviation Table := (list (string * list float)).

Definition colnames (t : Table) : list string := t.*1.

(** [len(table)]: the number of rows; a table without columns has none. *)
Definition table_len (t : Table) : nat :=
  match t with
  | [] => 0%nat
  | c :: _ => length c.2
  end.

(** The invariant astropy keeps on every table: column names are distinct
    and all columns have one entry per row. *)
Definition table_wf (t : Table) : Prop :=
  NoDup (colnames t) ∧ Forall (λ c, length c.2 = table_len t) t.

#[global] Instance table_wf_dec (t : Table) : Decision (table_wf t).
Proof. unfold table_wf. apply _. Defined.

(** [table[name]] *)
Definition Table_getitem (t : Table) (name : string) : result (list float) :=
  match assoc name t with
  | Some c => Ok c
  | None => Err (Inside "Table.__getitem__" (KeyError name))
  end.

(** [source[name]] for the row [i] of the table. *)
Definition Row_getitem (t : Table) (i : nat) (name : string) : result float :=
  match assoc name t with
  | None => Err (Inside "Row.__getitem__" (KeyError name))
  | Some c =>
      match c !! i with
      | Some v => Ok v
      | None => Err (Inside "Row.__getitem__" (IndexError "index out of range"))
      end
  end.

(** A model: the current value of each of its parameters. *)
Abbreviation Model := (gmap string float).

Definition param_names (model : Model) : gset string := dom model.

(** The object that reading a parameter attribute of an astropy model
    gives: a [Parameter] bound to the model.  It is a reference to the
    parameter of that name, not a number: its value is the one the model
    holds when the value is read, so it follows every later [setattr]. *)
Record parameter : Type := { parameter_name : string }.

(** [getattr(model, pnm)] *)
Definition getattr (model : Model) (pnm : string) : result parameter :=
  match model !! pnm with
  | Some _ => Ok (Build_parameter pnm)
  | None => Err (Here (AttributeError pnm))
  end.

(** [val.value] for a [Parameter] of the model: what the model holds under
    its name now.  [getattr] gives parameters of the model only and nothing
    removes one, so the name is always found. *)
Definition parameter_value (model : Model) (val : parameter) : float :=
  default 0%float (model !! parameter_name val).

(** [setattr(model, pnm, val)] with a number [val]. *)
Definition setattr (model : Model) (pnm : string) (val : float) : Model :=
  <[pnm := val]> model.

(** [Gaussian2D(x_stddev=1, y_stddev=1)] *)
Definition Gaussian2D : Model :=
  list_to_map
    [("amplitude", 1%float); ("x_mean", 0%float); ("y_mean", 0%float);
     ("x_stddev", 1%float); ("y_stddev", 1%float); ("theta", 0%float)].

(** ** Collaborators *)

(** Evaluation of a model on coordinate grids, its discretisation over a
    bounding box, and its printed form. *)
Class ModelOps : Type := {
  model_call : Model → ndarray Z → ndarray Z → pyexc + ndarray float;
  discretize_model : Model → Z * Z → Z * Z → float → pyexc + ndarray float;
  model_repr : Model → string;
}.

(** The random source: [check_random_state] and the draws of a
    [RandomState], which advance its state. *)
Class RandomOps : Type := {
  seed : Type;
  prng : Type;
  check_random_state : seed → pyexc + prng;
  uniform : prng → float → float → nat → pyexc + (list float * prng);
  poisson1 : prng → float → pyexc + (Z * prng);
}.

(** ** The renderer: [make_model_sources_image] *)

(** The local variables the [try] block assigns and the [finally] block
    reads.  [paramnm] is unbound until the inner loop binds it. *)
Record locals : Type := Locals {
  model : Model;
  image : ndarray float;
  paramnm : option string;
}.

(** [for a in l: body], stopping at the first exception. *)
Fixpoint for_each {A S} (body : A → S → S * result unit) (l : list A) (st : S)
  : S * result unit :=
  match l with
  | [] => (st, Ok tt)
  | a :: l' =>
      match body a st with
      | (st', Ok _) => for_each body l' st'
      | (st', Err e) => (st', Err e)
      end
  end.

(** [{pnm: getattr(model, pnm) for pnm in params_to_set}]: the dict holds
    the [Parameter] objects of the model, not copies of their values. *)
Fixpoint init_params_of (model : Model) (params_to_set : list string)
    (acc : list (string * parameter)) : result (list (string * parameter)) :=
  match params_to_set with
  | [] => Ok acc
  | pnm :: rest =>
      let? val := getattr model pnm in
      init_params_of model rest (assoc_set pnm val acc)
  end.

Section Renderer.
Context `{ModelOps}.

Variable image_shape : np.shape_arg.
Variable source_table : Table.
Variable oversample : float.

(** [image_shape[i]] as a bound of the bounding box.  An item of an array
    is a sub-array or a float, which [discretize_model] takes for no
    bound. *)
Definition shape_getitem (i : nat) : result Z :=
  match image_shape with
  | np.Shape dims =>
      match dims !! i with
      | Some d => Ok d
      | None => Err (Here (IndexError "tuple index out of range"))
      end
  | np.Array a =>
      if bool_decide (Z.of_nat i < default 0 (head (shape a)))
      then Err (Inside "discretize_model" (TypeError "range bound is no integer"))
      else Err (Inside "ndarray.__getitem__" (IndexError "index out of bounds"))
  end.

(** [setattr(model, paramnm, source[paramnm])], with [paramnm] bound by
    the enclosing [for]. *)
Definition set_param (i : nat) (p : string) (st : locals)
  : locals * result unit :=
  let st := Locals (model st) (image st) (Some p) in
  match Row_getitem source_table i p with
  | Ok v => (Locals (setattr (model st) p v) (image st) (paramnm st), Ok tt)
  | Err e => (st, Err e)
  end.

(** The model on the pixel grid: at the pixel centres, or averaged over an
    oversampled grid. *)
Definition evaluate (x y : ndarray Z) (st : locals)
  : result (ndarray float) :=
  if (oversample =? 1)%float
  then calling "model" (model_call (model st) x y)
  else
    let? nx := shape_getitem 1 in
    let? ny := shape_getitem 0 in
    calling "discretize_model"
      (discretize_model (model st) (0, nx) (0, ny) oversample).

(** The body of [for i, source in enumerate(source_table)]. *)
Definition render_source (params_to_set : list string) (x y : ndarray Z)
    (i : nat) (st : locals) : locals * result unit :=
  match for_each (set_param i) params_to_set st with
  | (st, Err e) => (st, Err e)
  | (st, Ok _) =>
      match (let? r := evaluate x y st in np.iadd (image st) r) with
      | Ok image' => (Locals (model st) image' (paramnm st), Ok tt)
      | Err e => (st, Err e)
      end
  end.

(** [setattr(model, paramnm, val)] of the [finally] block: the name read is
    [paramnm], whatever the inner loop last bound it to, and [val] is the
    [Parameter] saved under [pnm].  Assigning a [Parameter] to a parameter
    stores the value that the assigned one has at that moment. *)
Definition restore (item : string * parameter) (st : locals)
  : locals * result unit :=
  match paramnm st with
  | Some p =>
      (Locals (setattr (model st) p (parameter_value (model st) item.2))
         (image st) (paramnm st), Ok tt)
  | None => (st, Err (Here (UnboundLocalError "paramnm")))
  end.

(** [try: body finally: handler], on the state the body left. *)
Definition try_finally {S} (body handler : S → S * result unit) (st : S)
  : S * result unit :=
  match body st with
  | (st1, r1) =>
      match handler st1 with
      | (st2, Ok _) => (st2, r1)
      | (st2, Err e) => (st2, Err e)
      end
  end.

Definition params_to_set_of (model0 : Model) : list string :=
  filter (λ colnm, colnm ∈ param_names model0) (colnames source_table).

(** The call returns the model as it leaves it, with the image or the
    exception. *)
Definition make_model_sources_image (model0 : Model)
  : Model * result (ndarray float) :=
  match
    (let? image := np.zeros image_shape in
     let? grids := np.indices image_shape in
     let? yx := unpack2 grids in
     let params_to_set := params_to_set_of model0 in
     let? init_params := init_params_of model0 params_to_set [] in
     Ok (image, yx.1, yx.2, params_to_set, init_params))
  with
  | Err e => (model0, Err e)
  | Ok (image0, y, x, params_to_set, init_params) =>
      match
        try_finally
          (for_each (render_source params_to_set x y)
             (seq 0 (table_len source_table)))
          (for_each restore init_params)
          (Locals model0 image0 None)
      with
      | (st, Ok _) => (model st, Ok (image st))
      | (st, Err e) => (model st, Err e)
      end
  end.

End Renderer.

(** What the inner loop leaves behind on the row [i]: [paramnm] is its last
    name, every name it went through has the row's value, and the other
    parameters are as they were. *)
Definition params_set (t : Table) (i : nat) (ps : list string)
    (st st' : locals) : Prop :=
  paramnm st' = from_option Some (paramnm st) (last ps)
  ∧ (∀ p, p ∈ ps → ∃ v, Row_getitem t i p = Ok v ∧ model st' !! p = Some v)
  ∧ (∀ p, p ∉ ps → model st' !! p = model st !! p).

(** ** The Gaussian adapter: [make_gaussian_sources_image] *)

(** Tables are objects: a variable holds a reference into the store of
    tables, [copy] allocates a new table and item assignment and deletion
    change the referenced one. *)
Abbreviation heap := (list Table).

Definition deref (h : heap) (ref : nat) : Table := default [] (h !! ref).

Definition store (h : heap) (ref : nat) (t : Table) : heap := <[ref := t]> h.

(** [table.copy()] *)
Definition Table_copy (h : heap) (ref : nat) : heap * nat :=
  (h ++ [deref h ref], length h).

(** Arithmetic on columns is element by element. *)
Definition scalar_mul (k : float) (c : list float) : list float :=
  (λ x, (k * x)%float) <$> c.

Definition col_mul (a b : list float) : list float :=
  zip_with (λ x y, (x * y)%float) a b.

Definition col_div (a b : list float) : list float :=
  zip_with (λ x y, (x / y)%float) a b.

(** The [if 'flux' in ...: ... elif ...: raise] block: the reference bound to
    [source_table] when the block is left. *)
Definition normalize_source_table (source_table : nat) (h : heap)
  : heap * result nat :=
  if decide ("flux" ∈ colnames (deref h source_table)) then
    let (h, source_table) := Table_copy h source_table in
    match
      (let? flux := Table_getitem (deref h source_table) "flux" in
       let? x_stddev := Table_getitem (deref h source_table) "x_stddev" in
       let? y_stddev := Table_getitem (deref h source_table) "y_stddev" in
       Ok (col_div flux
             (col_mul (scalar_mul (2 * np.pi)%float x_stddev) y_stddev)))
    with
    | Err e => (h, Err e)
    | Ok amplitude =>
        let h := store h source_table
                   (assoc_set "amplitude" amplitude (deref h source_table)) in
        let h := store h source_table
                   (assoc_del "flux" (deref h source_table)) in
        (h, Ok source_table)
    end
  else if decide ("amplitude" ∉ colnames (deref h source_table)) then
    (h, Err (Here (ValueError
       ("either " +:+ dquote +:+ "amplitude" +:+ dquote +:+ " or " +:+ dquote
          +:+ "flux" +:+ dquote
          +:+ " must be columns in the input source_table"))))
  else (h, Ok source_table).

Section Gaussian.
Context `{ModelOps}.

Definition make_gaussian_sources_image (image_shape : np.shape_arg)
    (source_table : nat) (oversample : float) (h : heap)
  : heap * result (ndarray float) :=
  match normalize_source_table source_table h with
  | (h, Err e) => (h, Err e)
  | (h, Ok source_table) =>
      let model := Gaussian2D in
      (h, (make_model_sources_image image_shape (deref h source_table)
             oversample model).2)
  end.

End Gaussian.

(** ** Random tables and Poisson noise *)

Section Random.
Context `{ModelOps} `{RandomOps}.

(** [ValueError('Requested parameter {} is not in model {}'.format(pnm,
    model))] *)
Definition unknown_parameter (model : Model) (pnm : string) : pyexc :=
  ValueError ("Requested parameter " +:+ pnm +:+ " is not in model "
                +:+ model_repr model).

(** The loop over [param_ranges.items()], with the generator state and the
    table built so far. *)
Fixpoint draw_params (model : Model) (n_sources : nat)
    (items : list (string * (float * float))) (prng0 : prng)
    (sources : Table) : result Table :=
  match items with
  | [] => Ok sources
  | (pnm, (lower, upper)) :: rest =>
      if decide (pnm ∉ param_names model) then
        Err (Here (unknown_parameter model pnm))
      else
        let? drawn := calling "RandomState.uniform"
                        (uniform prng0 lower upper n_sources) in
        draw_params model n_sources rest drawn.2
          (assoc_set pnm drawn.1 sources)
  end.

Definition make_random_models_table (model : Model) (n_sources : nat)
    (param_ranges : option (list (string * (float * float))))
    (random_state : seed) : result Table :=
  let? prng0 := calling "check_random_state"
                  (check_random_state random_state) in
  let sources := [] in
  match param_ranges with
  | None =>
      Err (Here (AttributeError "NoneType object has no attribute items"))
  | Some items => draw_params model n_sources items prng0 sources
  end.

(** [prng.poisson(lam)] for an array [lam]: one draw per element, in
    order, each with that element as the expectation. *)
Fixpoint poisson (prng0 : prng) (lam : list float) : pyexc + (list Z * prng) :=
  match lam with
  | [] => inr ([], prng0)
  | x :: lam' =>
      match poisson1 prng0 x with
      | inl e => inl e
      | inr (k, prng1) =>
          match poisson prng1 lam' with
          | inl e => inl e
          | inr (ks, prng2) => inr (k :: ks, prng2)
          end
      end
  end.

Definition apply_poisson_noise (data0 : ndarray float) (random_state : seed)
  : result (ndarray Z) :=
  if np.any_negative data0 then
    Err (Here (ValueError "data must not contain any negative values"))
  else
    let? prng0 := calling "check_random_state"
                    (check_random_state random_state) in
    let? drawn := calling "RandomState.poisson" (poisson prng0 (data data0)) in
    Ok (NdArray (shape data0) drawn.1).

End Random.

(** ** Concrete collaborators, to run the functions on examples *)

(** A flat model: every pixel has the value of [amplitude]; a negative
    amplitude is refused. *)
Definition flat_value (m : Model) : float := default 0%float (m !! "amplitude").

Definition flat_ops : ModelOps := {|
  model_call m x y :=
    if (flat_value m <? 0)%float
    then inl (ValueError "negative amplitude")
    else inr (NdArray (shape x) (replicate (length (data x)) (flat_value m)));
  discretize_model m xr yr factor :=
    if (flat_value m <? 0)%float
    then inl (ValueError "negative amplitude")
    else inr (NdArray [yr.2 - yr.1; xr.2 - xr.1]
                (replicate (Z.to_nat ((yr.2 - yr.1) * (xr.2 - xr.1)))
                   (flat_value m)));
  model_repr m := "<flat model>";
|}.

(** A counter for a generator: the [k]-th draw of a Poisson sample is [k],
    a uniform draw returns the lower bound. *)
Definition counter_ops : RandomOps := {|
  seed := Z;
  prng := Z;
  check_random_state s := inr s;
  uniform p lower upper n := inr (replicate n lower, p + Z.of_nat n);
  poisson1 p lam := inr (p, p + 1);
|}.

(** A model with two parameters and a table with one source that sets
    both. *)
Definition two_params : Model :=
  list_to_map [("amplitude", 1%float); ("x_mean", 2%float)].

Definition one_source : Table :=
  [("amplitude", [10%float]); ("x_mean", [20%float])].

(** Two Gaussian sources given by their flux, in a table that also has an
    [amplitude] column. *)
Definition flux_sources : Table :=
  [("flux", [10%float; 11%float]); ("amplitude", [7%float; 7%float]);
   ("x_stddev", [1%float; 2%float]); ("y_stddev", [1%float; 0.5%float])].

(** ** Message templates: [str.format] *)

Definition char_is (c : Ascii.ascii) (s : string) : bool :=
  bool_decide (String c EmptyString = s).

Definition is_digit (c : Ascii.ascii) : bool :=
  (48 <=? Ascii.nat_of_ascii c)%nat && (Ascii.nat_of_ascii c <=? 57)%nat.

Fixpoint all_digits (s : string) : bool :=
  match s with
  | EmptyString => true
  | String c rest => is_digit c && all_digits rest
  end.

Fixpoint decimal (acc : nat) (s : string) : nat :=
  match s with
  | EmptyString => acc
  | String c rest => decimal (10 * acc + (Ascii.nat_of_ascii c - 48))%nat rest
  end.

(** The argument a replacement field names: the text of the field up to the
    first of [.], [[], [!] and [:]. *)
Fixpoint arg_name (field : string) : string :=
  match field with
  | EmptyString => EmptyString
  | String c rest =>
      if char_is c "." || char_is c "[" || char_is c "!" || char_is c ":"
      then EmptyString
      else String c (arg_name rest)
  end.

(** How the fields seen so far are numbered. *)
Inductive numbering : Type :=
  | Unnumbered
  | Automatic (next : nat)
  | Manual.

(** The value of a field when only positional arguments are passed: an empty
    name takes the next argument, a number the argument at that index (the
    two ways of numbering do not mix), and any other name is looked up among
    the keyword arguments, of which there are none. *)
Definition field_value (field : string) (num : numbering) (args : list string)
  : result (string * numbering) :=
  let name := arg_name field in
  let positional (i : nat) (num' : numbering) : result (string * numbering) :=
    match args !! i with
    | Some v => Ok (v, num')
    | None =>
        Err (Inside "str.format"
               (IndexError "Replacement index out of range for positional args tuple"))
    end in
  if decide (name = EmptyString) then
    match num with
    | Unnumbered => positional 0%nat (Automatic 1)
    | Automatic next => positional next (Automatic (S next))
    | Manual =>
        Err (Inside "str.format" (ValueError
          "cannot switch from manual field specification to automatic field numbering"))
    end
  else if all_digits name then
    match num with
    | Automatic _ =>
        Err (Inside "str.format" (ValueError
          "cannot switch from automatic field numbering to manual field specification"))
    | _ => positional (decimal 0 name) Manual
    end
  else Err (Inside "str.format" (KeyError name)).

Inductive format_mode : Type :=
  | InText
  | InField (field : string).

(** [template.format(arg0, arg1, ...)], read from left to right: doubled
    braces are literal braces, and the text between a single [{] and the
    next [}] is a replacement field.  The conversion, the format
    specification and the attribute or item part of a field are not
    interpreted (the templates of this module have none). *)
Fixpoint format_from (mode : format_mode) (num : numbering) (args : list string)
    (template : string) : result string :=
  match mode, template with
  | InText, EmptyString => Ok EmptyString
  | InText, String c rest =>
      if char_is c "{" then
        match rest with
        | String c' rest' =>
            if char_is c' "{"
            then let? out := format_from InText num args rest' in
                 Ok (String c out)
            else format_from (InField EmptyString) num args rest
        | EmptyString => format_from (InField EmptyString) num args rest
        end
      else if char_is c "}" then
        match rest with
        | String c' rest' =>
            if char_is c' "}"
            then let? out := format_from InText num args rest' in
                 Ok (String c out)
            else Err (Inside "str.format"
                        (ValueError "Single '}' encountered in format string"))
        | EmptyString =>
            Err (Inside "str.format"
                   (ValueError "Single '}' encountered in format string"))
        end
      else
        let? out := format_from InText num args rest in
        Ok (String c out)
  | InField field, EmptyString =>
      Err (Inside "str.format"
             (ValueError "expected '}' before end of string"))
  | InField field, String c rest =>
      if char_is c "}" then
        let? v := field_value field num args in
        let? out := format_from InText v.2 args rest in
        Ok (v.1 +:+ out)
      else if char_is c "{" then
        Err (Inside "str.format" (ValueError "unexpected '{' in field name"))
      else format_from (InField (field +:+ String c EmptyString)) num args rest
  end.

Definition str_format (template : string) (args : list string) : result string :=
  format_from InText Unnumbered args template.

(** ** Noise images: [make_noise_image] *)

(** The normal draws of the random source, and an integer given as the
    [random_state]. *)
Class NoiseOps `{RandomOps} : Type := {
  normal1 : prng → float → float → pyexc + (float * prng);
  seed_of_int : Z → seed;
}.

(** A noise image is an array of floats (normal draws) or of integers
    (Poisson draws). *)
Inductive noise_image : Type :=
  | FloatImage (a : ndarray float)
  | IntImage (a : ndarray Z).

(** The template of the message for an unknown [type]:
    ['Invalid type: {0}. Use one of {"gaussian", "poisson"}.'] *)
Definition invalid_type_template : string :=
  "Invalid type: {0}. Use one of {" +:+ dquote +:+ "gaussian" +:+ dquote
    +:+ ", " +:+ dquote +:+ "poisson" +:+ dquote +:+ "}.".

(** The number of draws for [size=image_shape]. *)
Definition draw_count (callee : string) (image_shape : list Z) : result nat :=
  if forallb (Z.leb 0) image_shape
  then Ok (Z.to_nat (np.size image_shape))
  else Err (Inside callee (ValueError "negative dimensions are not allowed")).

Section Noise.
Context `{RandomOps} `{!NoiseOps}.

(** [prng.normal(loc, scale, size)]: one draw after the other. *)
Fixpoint normal (prng0 : prng) (loc scale : float) (n : nat)
  : pyexc + (list float * prng) :=
  match n with
  | O => inr ([], prng0)
  | S n' =>
      match normal1 prng0 loc scale with
      | inl e => inl e
      | inr (v, prng1) =>
          match normal prng1 loc scale n' with
          | inl e => inl e
          | inr (vs, prng2) => inr (v :: vs, prng2)
          end
      end
  end.

Definition make_noise_image (image_shape : list Z) (type : string)
    (mean stddev : option float) (random_state : seed) : result noise_image :=
  match mean with
  | None =>
      Err (Here (ValueError (dquote +:+ "mean" +:+ dquote +:+ " must be input")))
  | Some mean =>
      let? prng0 := calling "check_random_state"
                      (check_random_state random_state) in
      if decide (type = "gaussian") then
        match stddev with
        | None =>
            Err (Here (ValueError
              (dquote +:+ "stddev" +:+ dquote
                 +:+ " must be input for Gaussian noise")))
        | Some stddev =>
            let? n := draw_count "RandomState.normal" image_shape in
            let? drawn := calling "RandomState.normal"
                            (normal prng0 mean stddev n) in
            Ok (FloatImage (NdArray image_shape drawn.1))
        end
      else if decide (type = "poisson") then
        let? n := draw_count "RandomState.poisson" image_shape in
        let? drawn := calling "RandomState.poisson"
                        (poisson prng0 (replicate n mean)) in
        Ok (IntImage (NdArray image_shape drawn.1))
      else
        let? msg := str_format invalid_type_template [type] in
        Err (Here (ValueError msg))
  end.

(** ** Random Gaussian sources: [make_random_gaussians_table] *)

(** [sources[name] = prng.uniform(lower, upper, n_sources)] *)
Definition draw_column (name : string) (range : float * float) (n_sources : nat)
    (st : prng * Table) : result (prng * Table) :=
  let? drawn := calling "RandomState.uniform"
                  (uniform st.1 range.1 range.2 n_sources) in
  Ok (drawn.2, assoc_set name drawn.1 st.2).

(** A range is the pair [(lower, upper)] the docstring asks for. *)
Definition make_random_gaussians_table (n_sources : nat)
    (flux_range xmean_range ymean_range xstddev_range ystddev_range
       : float * float)
    (amplitude_range : option (float * float)) (random_state : seed)
  : result Table :=
  let? prng0 := calling "check_random_state"
                  (check_random_state random_state) in
  let sources := [] in
  let? st :=
    match amplitude_range with
    | None => draw_column "flux" flux_range n_sources (prng0, sources)
    | Some amplitude_range =>
        draw_column "amplitude" amplitude_range n_sources (prng0, sources)
    end in
  let? st := draw_column "x_mean" xmean_range n_sources st in
  let? st := draw_column "y_mean" ymean_range n_sources st in
  let? st := draw_column "x_stddev" xstddev_range n_sources st in
  let? st := draw_column "y_stddev" ystddev_range n_sources st in
  let? st := draw_column "theta" (0, 2 * np.pi)%float n_sources st in
  Ok st.2.

End Noise.

(** ** The example images: [make_4gaussians_image], [make_100gaussians_image] *)

Definition float_of_Z (z : Z) : float :=
  if z <? 0 then (- of_uint63 (Uint63.of_Z (- z)))%float
  else of_uint63 (Uint63.of_Z z).

(** A noise image as the array of floats [+=] adds. *)
Definition noise_values (noise : noise_image) : ndarray float :=
  match noise with
  | FloatImage a => a
  | IntImage a => NdArray (shape a) (float_of_Z <$> data a)
  end.

(** [image + k] *)
Definition add_scalar (a : ndarray float) (k : float) : ndarray float :=
  NdArray (shape a) ((λ x, (x + k)%float) <$> data a).

(** [np.array([...]) * np.pi / 180.], element by element. *)
Definition radians (degrees : list float) : list float :=
  (λ d, (d * np.pi / 180)%float) <$> degrees.

#[warnings="-inexact-float"]
Definition four_gaussians : Table :=
  [("amplitude", [50; 70; 150; 210]%float);
   ("x_mean", [160; 25; 150; 90]%float);
   ("y_mean", [70; 40; 25; 60]%float);
   ("x_stddev", [15.2; 5.1; 3; 8.1]%float);
   ("y_stddev", [2.6; 2.5; 3; 4.7]%float);
   ("theta", radians [145; 20; 0; 60]%float)].

Section Examples.
Context `{ModelOps} `{RandomOps} `{!NoiseOps}.

(** The background and the noise both builders add to the sources. *)
Definition make_4gaussians_image (noise : bool) : result (ndarray float) :=
  let table := four_gaussians in
  let shape := [100; 200] in
  let? sources :=
    (make_gaussian_sources_image (np.Shape shape) 0 1%float [table]).2 in
  let data := add_scalar sources 5%float in
  if noise then
    let? drawn := make_noise_image shape "gaussian" (Some 0%float)
                    (Some 5%float) (seed_of_int 12345) in
    np.iadd data (noise_values drawn)
  else Ok data.

Definition make_100gaussians_image (noise : bool) : result (ndarray float) :=
  let n_sources := 100%nat in
  let flux_range := (500, 1000)%float in
  let xmean_range := (0, 500)%float in
  let ymean_range := (0, 300)%float in
  let xstddev_range := (1, 5)%float in
  let ystddev_range := (1, 5)%float in
  let? table :=
    make_random_gaussians_table n_sources flux_range xmean_range ymean_range
      xstddev_range ystddev_range None (seed_of_int 12345) in
  let shape := [300; 500] in
  let? sources :=
    (make_gaussian_sources_image (np.Shape shape) 0 1%float [table]).2 in
  let data := add_scalar sources 5%float in
  if noise then
    let? drawn := make_noise_image shape "gaussian" (Some 0%float)
                    (Some 2%float) (seed_of_int 12345) in
    np.iadd data (noise_values drawn)
  else Ok data.

End Examples.

(** ** FITS images: [make_imagehdu] *)

(** The coordinate transform, its header, and the image container that
    [astropy.io.fits] builds. *)
Class FitsOps : Type := {
  WCS : Type;
  Header : Type;
  HDU : Type;
  to_header : WCS → pyexc + Header;
  ImageHDU : ndarray float → option Header → pyexc + HDU;
}.

Section Fits.
Context `{FitsOps}.

Definition make_imagehdu (data0 : ndarray float) (wcs : option WCS)
  : result HDU :=
  if decide (length (shape data0) ≠ 2%nat) then
    Err (Here (ValueError "data must be a 2D array"))
  else
    let? header :=
      match wcs with
      | Some wcs =>
          let? h := calling "WCS.to_header" (to_header wcs) in Ok (Some h)
      | None => Ok None
      end in
    calling "fits.ImageHDU" (ImageHDU data0 header).

End Fits.

(** ** More concrete collaborators *)

(** Normal draws that return the mean, and integers as seeds. *)
Definition counter_normal1 (p : Z) (loc scale : float) : pyexc + (float * Z) :=
  inr (loc, p + 1).

Definition counter_noise : @NoiseOps counter_ops :=
  @Build_NoiseOps counter_ops counter_normal1 (λ z : Z, z).

(** The flat model without an oversampled evaluation. *)
Definition flat_ops_pixel_centres : ModelOps := {|
  model_call := @model_call flat_ops;
  discretize_model m xr yr factor := inl (TypeError "no oversampling");
  model_repr := @model_repr flat_ops;
|}.

(** Containers that record what they are given. *)
Definition record_fits : FitsOps := {|
  WCS := string;
  Header := string;
  HDU := ndarray float * option string;
  to_header w := inr w;
  ImageHDU a h := inr (a, h);
|}.

(** ** Invariants of the renderer's loops *)

(** A parameter outside [ps] has its pre-call value, and [paramnm], once
    bound, is one of [ps]. *)
Definition outside_kept (m : Model) (ps : list string) (q : string)
    (st : locals) : Prop :=
  model st !! q = m !! q ∧ ∀ p, paramnm st = Some p → p ∈ ps.

(** The image has the shape and the size of the grid it started from. *)
Definition image_like (image0 : ndarray float) (st : locals) : Prop :=
  shape (image st) = shape image0
  ∧ length (data (image st)) = length (data image0).

(** An exception that came out of a call, and was not raised by a statement
    of the function. *)
Definition propagated (callees : list string) (r : raised) : Prop :=
  ∃ callee e, r = Inside callee e ∧ callee ∈ callees.

(** An outcome that is an image of the given shape, with one value for each
    of its positions, or an exception that came out of one of the calls. *)
Definition image_or_propagated (dims : list Z) (callees : list string)
    (r : result (ndarray float)) : Prop :=
  match r with
  | Ok img => shape img = dims ∧ length (data img) = Z.to_nat (np.size dims)
  | Err e => propagated callees e
  end.

(** ** The image as a sum over the sources *)

(** The model with the values of the row [i] for the names [ps], and its own
    values for the other parameters. *)
Definition row_model (t : Table) (ps : list string) (i : nat) (m : Model)
  : Model :=
  foldl (λ acc p, match Row_getitem t i p with
                  | Ok v => setattr acc p v
                  | Err _ => acc
                  end) m ps.

(** The rows rendered one by one, each from the pre-call model with the
    values of that row alone, and added to the image. *)
Fixpoint sum_of_sources `{ModelOps} (image_shape : np.shape_arg) (t : Table)
    (oversample : float) (ps : list string) (x y : ndarray Z) (m : Model)
    (rows : list nat) (image0 : ndarray float) : result (ndarray float) :=
  match rows with
  | [] => Ok image0
  | i :: rest =>
      let? r := evaluate image_shape oversample x y
                  (Locals (row_model t ps i m) image0 None) in
      let? image' := np.iadd image0 r in
      sum_of_sources image_shape t oversample ps x y m rest image'
  end.

(** * Properties *)

(** ** Association lists *)

Section AssocFacts.
Context {V : Type}.
Implicit Types (l : list (string * V)) (k : string) (v : V).

Lemma assoc_None k l : assoc k l = None ↔ k ∉ l.*1.
Proof.
  induction l as [|[k' v'] l IH]; simpl.
  - split; [intros _ Hin; inversion Hin | done].
  - case_decide as Hk; subst.
    + split; [done | intros Hn; destruct Hn; left].
    + rewrite IH, not_elem_of_cons.
      split; [intros ?; split; [congruence | done] | by intros [_ ?]].
Qed.

Lemma assoc_is_Some k l : is_Some (assoc k l) ↔ k ∈ l.*1.
Proof.
  destruct (decide (k ∈ l.*1)) as [Hin|Hin].
  - split; [done | intros _].
    destruct (assoc k l) eqn:E; [done |]. by apply assoc_None in E.
  - apply assoc_None in Hin as E. rewrite E.
    split; [by intros [? ?] | done].
Qed.

Lemma assoc_set_eq k v l : assoc k (assoc_set k v l) = Some v.
Proof.
  induction l as [|[k' v'] l IH]; simpl.
  - by case_decide.
  - case_decide as Hk; simpl; by case_decide.
Qed.

Lemma assoc_set_ne k k' v l : k ≠ k' → assoc k' (assoc_set k v l) = assoc k' l.
Proof.
  intros Hne. induction l as [|[k0 v0] l IH]; simpl.
  - by case_decide.
  - case_decide as Hk; simpl; subst.
    + by repeat case_decide.
    + case_decide; [done | apply IH].
Qed.

Lemma assoc_set_fresh k v l : k ∉ l.*1 → assoc_set k v l = l ++ [(k, v)].
Proof.
  induction l as [|[k0 v0] l IH]; simpl; [done |].
  rewrite not_elem_of_cons. intros [Hne Hnin].
  case_decide; [congruence |]. by rewrite IH.
Qed.

Lemma assoc_del_ne k k' l : k ≠ k' → assoc k' (assoc_del k l) = assoc k' l.
Proof.
  intros Hne. induction l as [|[k0 v0] l IH]; simpl; [done |].
  case_decide as Hk; simpl; subst.
  - by case_decide.
  - case_decide; [done | apply IH].
Qed.

Lemma assoc_del_gone k l : NoDup l.*1 → k ∉ (assoc_del k l).*1.
Proof.
  induction l as [|[k0 v0] l IH]; simpl; [intros _; apply not_elem_of_nil |].
  rewrite NoDup_cons. intros [Hk0 Hnd].
  case_decide as Hk; simpl; subst; [done |].
  rewrite not_elem_of_cons. split; [congruence | by apply IH].
Qed.

(** A column put anywhere among the others leaves their lookups alone. *)
Lemma assoc_insert_other k k' v l pos :
  k ≠ k' → assoc k' (take pos l ++ (k, v) :: drop pos l) = assoc k' l.
Proof.
  intros Hne. revert pos.
  induction l as [|[k0 v0] l IH]; intros [|pos]; simpl; by case_decide.
Qed.
End AssocFacts.

(** ** Loops *)

Section LoopFacts.
Context {A S : Type}.
Implicit Types (body : A → S → S * result unit) (l : list A) (st : S).

Lemma for_each_ext body1 body2 l st :
  (∀ a st', a ∈ l → body1 a st' = body2 a st') →
  for_each body1 l st = for_each body2 l st.
Proof.
  revert st. induction l as [|a l IH]; intros st Hext; simpl; [done |].
  rewrite Hext by left.
  destruct (body2 a st) as [st' [[]|e]]; [| done].
  apply IH. intros a' st'' Hin. apply Hext. by right.
Qed.

Lemma for_each_snoc body l a st :
  for_each body (l ++ [a]) st =
    match for_each body l st with
    | (st', Ok _) => body a st'
    | (st', Err e) => (st', Err e)
    end.
Proof.
  revert st. induction l as [|a' l IH]; intros st; simpl.
  - by destruct (body a st) as [st' [[]|e]].
  - destruct (body a' st) as [st' [[]|e]]; [apply IH | done].
Qed.

(** A property every iteration keeps holds when the loop is left, however
    it is left. *)
Lemma for_each_invariant (P : S → Prop) body l st :
  (∀ a st', a ∈ l → P st' → P (body a st').1) →
  P st → P (for_each body l st).1.
Proof.
  revert st. induction l as [|a l IH]; intros st Hstep HP; simpl; [done |].
  pose proof (Hstep a st (list_elem_of_here _ _) HP) as HP'.
  destruct (body a st) as [st' [[]|e]]; simpl in *; [| done].
  apply IH; [| done]. intros a' st'' Hin. apply Hstep. by right.
Qed.
End LoopFacts.

(** ** Rows of a well-formed table *)

Lemma assoc_Some_elem_of {V} k (v : V) l : assoc k l = Some v → (k, v) ∈ l.
Proof.
  induction l as [|[k' v'] l IH]; simpl; [done |].
  case_decide; intros Heq; simplify_eq; [left | right; auto].
Qed.

Lemma Row_getitem_wf (t : Table) i p :
  table_wf t → p ∈ colnames t → (i < table_len t)%nat →
  ∃ v, Row_getitem t i p = Ok v.
Proof.
  intros [_ Hlen] Hp Hi. unfold Row_getitem.
  apply assoc_is_Some in Hp as [c Hc]. rewrite Hc.
  apply assoc_Some_elem_of in Hc.
  rewrite Forall_forall in Hlen. specialize (Hlen _ Hc). simpl in Hlen.
  destruct (lookup_lt_is_Some_2 c i) as [v Hv]; [lia |].
  rewrite Hv. eauto.
Qed.

Lemma Row_getitem_insert_other (t : Table) pos name col i p :
  name ≠ p →
  Row_getitem (take pos t ++ (name, col) :: drop pos t) i p = Row_getitem t i p.
Proof. intros Hne. unfold Row_getitem. by rewrite assoc_insert_other. Qed.

(** ** The names to set and the saved parameters *)

Lemma elem_of_param_names (m : Model) p : p ∈ param_names m ↔ is_Some (m !! p).
Proof. unfold param_names. apply elem_of_dom. Qed.

Lemma params_to_set_in_model (t : Table) (m : Model) :
  Forall (λ p, p ∈ param_names m) (params_to_set_of t m).
Proof.
  apply Forall_forall. intros p Hp.
  by apply list_elem_of_filter in Hp as [? _].
Qed.

Lemma params_to_set_in_table (t : Table) (m : Model) :
  Forall (λ p, p ∈ colnames t) (params_to_set_of t m).
Proof.
  apply Forall_forall. intros p Hp.
  by apply list_elem_of_filter in Hp as [_ ?].
Qed.

Lemma params_to_set_NoDup (t : Table) (m : Model) :
  table_wf t → NoDup (params_to_set_of t m).
Proof. intros [Hnd _]. by apply NoDup_filter. Qed.

Lemma init_params_of_nonempty (m : Model) ps acc :
  Forall (λ p, p ∈ param_names m) ps →
  ps ≠ [] ∨ acc ≠ [] →
  ∃ items, init_params_of m ps acc = Ok items ∧ items ≠ [].
Proof.
  revert acc. induction ps as [|p ps IH]; intros acc Hin Hne; simpl.
  - destruct Hne as [? | ?]; [done | eauto].
  - apply Forall_cons in Hin as [Hp Hin].
    apply elem_of_param_names in Hp as [v Hv]. unfold getattr. rewrite Hv. simpl.
    apply IH; [done |]. right. by destruct acc as [|[k' v'] acc]; simpl;
      [| case_decide].
Qed.

(** What [getattr] returns names a parameter that the model has, and an
    assignment removes none: reading the value of a saved parameter always
    finds it in the model. *)
Lemma getattr_Ok (m : Model) pnm par :
  getattr m pnm = Ok par →
  par = Build_parameter pnm ∧ ∃ v, m !! pnm = Some v ∧ parameter_value m par = v.
Proof.
  unfold getattr, parameter_value. destruct (m !! pnm) as [v|] eqn:Hv; [| done].
  intros [= <-]. split; [done |]. exists v. simpl. by rewrite Hv.
Qed.

Lemma setattr_keeps_parameters (m : Model) p v q :
  is_Some (m !! q) → is_Some (setattr m p v !! q).
Proof.
  intros Hq. unfold setattr. destruct (decide (p = q)) as [-> | Hne].
  - rewrite lookup_insert_eq. by eexists.
  - by rewrite lookup_insert_ne.
Qed.

(** The saved objects are the parameters of the model, one for each name in
    order. *)
Lemma init_params_of_spec (m : Model) ps acc :
  NoDup ps →
  Forall (λ p, p ∈ param_names m) ps →
  (∀ p, p ∈ ps → p ∉ acc.*1) →
  ∃ items, init_params_of m ps acc = Ok (acc ++ items)
           ∧ items.*1 = ps
           ∧ items = (λ p, (p, Build_parameter p)) <$> ps.
Proof.
  revert acc. induction ps as [|p ps IH]; intros acc Hnd Hin Hfresh; simpl.
  - exists []. by rewrite app_nil_r.
  - apply NoDup_cons in Hnd as [Hp Hnd].
    apply Forall_cons in Hin as [Hpm Hin].
    apply elem_of_param_names in Hpm as [v Hv]. unfold getattr. rewrite Hv. simpl.
    rewrite assoc_set_fresh by (apply Hfresh; left).
    destruct (IH (acc ++ [(p, Build_parameter p)]) Hnd Hin)
      as (items & Heq & Hkeys & Hvals).
    { intros q Hq. rewrite fmap_app, elem_of_app. simpl.
      intros [Hacc | Hq']; [by apply (Hfresh q); [right |] |].
      apply list_elem_of_singleton in Hq'. by subst. }
    exists ((p, Build_parameter p) :: items). rewrite Heq, <- app_assoc. simpl.
    split_and!; [done | f_equal; exact Hkeys | by rewrite Hvals].
Qed.

(** ** The grid of a shape with two dimensions *)

Lemma zeros_2d (ny nx : Z) :
  0 ≤ ny → 0 ≤ nx →
  np.zeros (np.Shape [ny; nx])
  = Ok (NdArray [ny; nx] (replicate (Z.to_nat (ny * nx)) 0%float)).
Proof.
  intros Hny Hnx. unfold np.zeros. simpl.
  rewrite !(proj2 (Z.leb_le _ _)) by done. simpl.
  by rewrite Z.mul_1_r.
Qed.

(** ** The loops of the renderer *)

Section RendererFacts.
Context `{ModelOps}.
Variables (image_shape : np.shape_arg) (t : Table) (oversample : float).
Variables (x y : ndarray Z).

Lemma set_params_spec i ps st :
  table_wf t → (i < table_len t)%nat → Forall (λ p, p ∈ colnames t) ps →
  ∃ st', for_each (set_param t i) ps st = (st', Ok tt)
         ∧ image st' = image st ∧ params_set t i ps st st'.
Proof.
  intros Hwf Hi. induction ps as [|p ps IH] using rev_ind; intros Hps.
  - exists st. split_and!; [done | done |].
    split_and!; [done | | done]. intros p Hp. inversion Hp.
  - apply Forall_app in Hps as [Hps Hp]. rewrite Forall_singleton in Hp.
    destruct (IH Hps) as (st1 & Hrun & Himg & Hnm & Hset & Hkeep).
    destruct (Row_getitem_wf t i p Hwf Hp Hi) as [v Hv].
    rewrite for_each_snoc, Hrun. unfold set_param. rewrite Hv. simpl.
    eexists. split; [done |]. split; [done |]. simpl. split_and!.
    + by rewrite last_snoc.
    + intros q Hq. unfold setattr. destruct (decide (q = p)) as [-> | Hne].
      * exists v. simpl. by rewrite lookup_insert_eq.
      * apply elem_of_app in Hq as [Hq | Hq];
          [| by apply list_elem_of_singleton in Hq].
        destruct (Hset q Hq) as (w & Hw & Hlook).
        exists w. simpl. by rewrite lookup_insert_ne.
    + intros q Hq. apply not_elem_of_app in Hq as [Hq Hqp].
      unfold setattr. simpl. rewrite lookup_insert_ne; [by apply Hkeep |].
      intros ->. apply Hqp. left.
Qed.

(** Evaluating and accumulating touch neither the model nor [paramnm]. *)
Lemma render_source_spec ps i st :
  table_wf t → (i < table_len t)%nat → Forall (λ p, p ∈ colnames t) ps →
  params_set t i ps st (render_source image_shape t oversample ps x y i st).1.
Proof.
  intros Hwf Hi Hps.
  destruct (set_params_spec i ps st Hwf Hi Hps) as (st1 & Hrun & _ & Hset).
  unfold render_source. rewrite Hrun.
  by destruct (bind _ _).
Qed.

Lemma render_sources_paramnm ps lastp rows st :
  table_wf t → Forall (λ i, (i < table_len t)%nat) rows →
  Forall (λ p, p ∈ colnames t) (ps ++ [lastp]) →
  rows ≠ [] ∨ paramnm st = Some lastp →
  paramnm (for_each (render_source image_shape t oversample (ps ++ [lastp]) x y)
             rows st).1 = Some lastp.
Proof.
  intros Hwf Hrows Hps.
  assert (∀ i st', (i < table_len t)%nat →
    paramnm (render_source image_shape t oversample (ps ++ [lastp]) x y i st').1
    = Some lastp) as Hstep.
  { intros i st' Hi.
    destruct (render_source_spec (ps ++ [lastp]) i st' Hwf Hi Hps) as [-> _].
    by rewrite last_snoc. }
  destruct rows as [|i rows]; intros Hst.
  - by destruct Hst.
  - apply Forall_cons in Hrows as [Hi Hrows]. simpl.
    pose proof (Hstep i st Hi) as Hfirst.
    destruct (render_source _ _ _ _ _ _ i st) as [st1 [[]|e]]; [| done].
    apply (for_each_invariant (λ s, paramnm s = Some lastp)); [| done].
    intros j st' Hj _. apply Hstep.
    rewrite Forall_forall in Hrows. by apply Hrows.
Qed.

Lemma render_sources_values ps rows k st st' :
  table_wf t → (k < table_len t)%nat → Forall (λ p, p ∈ colnames t) ps →
  for_each (render_source image_shape t oversample ps x y) (rows ++ [k]) st
    = (st', Ok tt) →
  ∀ p, p ∈ ps → ∃ v, Row_getitem t k p = Ok v ∧ model st' !! p = Some v.
Proof.
  intros Hwf Hk Hps. rewrite for_each_snoc.
  destruct (for_each _ rows st) as [st1 [[]|e]]; [| done].
  intros Hlast.
  destruct (render_source_spec ps k st1 Hwf Hk Hps) as (_ & Hset & _).
  by rewrite Hlast in Hset.
Qed.

(** The row that the [try] block went through last: the final row when
    every row was rendered, the row whose evaluation raised otherwise.  The
    parameters that were set have the values of that row. *)
Lemma render_sources_last_row ps rows st :
  table_wf t → Forall (λ i, (i < table_len t)%nat) rows →
  Forall (λ p, p ∈ colnames t) ps → rows ≠ [] →
  ∃ k, k ∈ rows
       ∧ ((for_each (render_source image_shape t oversample ps x y) rows st).2
            = Ok tt → last rows = Some k)
       ∧ ∀ p, p ∈ ps →
           ∃ v, Row_getitem t k p = Ok v
                ∧ model (for_each (render_source image_shape t oversample ps x y)
                           rows st).1 !! p = Some v.
Proof.
  intros Hwf Hrows Hps. revert st.
  induction rows as [|i rows IH]; intros st Hne; [done |].
  apply Forall_cons in Hrows as [Hi Hrows].
  destruct (render_source_spec ps i st Hwf Hi Hps) as (_ & Hset & _).
  simpl.
  destruct (render_source image_shape t oversample ps x y i st)
    as [st1 [[]|e]]; simpl in Hset.
  - destruct rows as [|j rows].
    + exists i. split_and!; [left | done | done].
    + destruct (IH Hrows st1) as (k & Hk & Hlast & Hvals); [done |].
      exists k. split_and!; [by right | done | done].
  - exists i. split_and!; [left | done | done].
Qed.

(** The [finally] loop writes one name only, and what it writes each time
    is the value that the saved parameter has at that moment. *)
Lemma restore_bound items p st :
  paramnm st = Some p →
  for_each restore items st =
    (Locals (foldl (λ m (it : string * parameter),
                      setattr m p (parameter_value m it.2)) (model st) items)
       (image st) (Some p), Ok tt).
Proof.
  revert st. induction items as [|it items IH]; intros [m img nm] Hp;
    simpl in *; subst; [done |].
  unfold restore at 1. simpl. by rewrite IH.
Qed.

Lemma restore_unbound items st :
  paramnm st = None → items ≠ [] →
  for_each restore items st = (st, Err (Here (UnboundLocalError "paramnm"))).
Proof.
  intros Hnm Hne. destruct items as [|it items]; [done |].
  simpl. unfold restore. by rewrite Hnm.
Qed.

Lemma parameter_value_eq (m : Model) (n : string) :
  parameter_value m (Build_parameter n) = default 0%float (m !! n).
Proof. done. Qed.

Lemma foldl_setattr_other (p q : string) (items : list (string * parameter))
    (m : Model) :
  p ≠ q →
  foldl (λ m (it : string * parameter), setattr m p (parameter_value m it.2))
    m items !! q = m !! q.
Proof.
  intros Hne. revert m. induction items as [|it items IH]; intros m;
    simpl; [done |].
  rewrite IH. unfold setattr. by rewrite lookup_insert_ne.
Qed.

(** After the saved parameters of the names [qs ++ [q]], none of them [p],
    the parameter [p] holds the value of [q]: each assignment replaced the
    one before, and [q] itself was never written. *)
Lemma foldl_setattr_reads (p q : string) (qs : list string) (m : Model) v :
  p ∉ qs ++ [q] → m !! q = Some v →
  foldl (λ m (it : string * parameter), setattr m p (parameter_value m it.2))
    m ((λ n, (n, Build_parameter n)) <$> qs ++ [q]) !! p = Some v.
Proof.
  intros Hp Hq. rewrite fmap_app, foldl_app. simpl.
  unfold setattr at 1. rewrite lookup_insert_eq. f_equal.
  rewrite parameter_value_eq.
  rewrite foldl_setattr_other, Hq; [done |].
  intros ->. apply Hp, elem_of_app. right. left.
Qed.

(** The value the [finally] loop leaves in the last name of the inner loop:
    the last assignment gives the parameter its own current value, which the
    assignment before it took from the parameter saved before it. *)
Lemma foldl_setattr_last (others : list string) (lastp : string) (m : Model) v :
  NoDup (others ++ [lastp]) →
  m !! default lastp (last others) = Some v →
  foldl (λ m (it : string * parameter),
           setattr m lastp (parameter_value m it.2))
    m ((λ n, (n, Build_parameter n)) <$> others ++ [lastp]) !! lastp = Some v.
Proof.
  intros Hnd Hv. rewrite fmap_app, foldl_app. simpl.
  unfold setattr at 1. rewrite lookup_insert_eq. f_equal.
  rewrite parameter_value_eq.
  apply NoDup_app in Hnd as (_ & Hdisj & _).
  destruct others as [|q qs _] using rev_ind.
  - simpl in *. by rewrite Hv.
  - rewrite last_snoc in Hv. simpl in Hv.
    rewrite (foldl_setattr_reads lastp q qs m v); [done | | done].
    intros Hin. apply (Hdisj lastp Hin). left.
Qed.

End RendererFacts.

(** ** The renderer as a whole *)

Section RendererTheorems.
Context `{ModelOps}.
Implicit Types (image_shape : np.shape_arg) (t : Table) (m : Model).

(** Once the image and the index grids exist the call is the [try] block
    followed by the [finally] block. *)
Lemma make_model_sources_image_run image_shape t oversample m image0 y x items :
  np.zeros image_shape = Ok image0 →
  np.indices image_shape = Ok [y; x] →
  init_params_of m (params_to_set_of t m) [] = Ok items →
  make_model_sources_image image_shape t oversample m =
    match
      try_finally
        (for_each (render_source image_shape t oversample
                     (params_to_set_of t m) x y) (seq 0 (table_len t)))
        (for_each restore items)
        (Locals m image0 None)
    with
    | (st, Ok _) => (model st, Ok (image st))
    | (st, Err e) => (model st, Err e)
    end.
Proof.
  intros Hz Hi Hinit. unfold make_model_sources_image.
  by rewrite Hz, Hi; simpl; rewrite Hinit.
Qed.

(** Before that, a failure leaves the model as it was. *)
Lemma make_model_sources_image_cases image_shape t oversample m :
  (∃ e, make_model_sources_image image_shape t oversample m = (m, Err e))
  ∨ (∃ image0 y x items,
       np.zeros image_shape = Ok image0
       ∧ np.indices image_shape = Ok [y; x]
       ∧ init_params_of m (params_to_set_of t m) [] = Ok items).
Proof.
  unfold make_model_sources_image.
  destruct (np.zeros image_shape) as [image0|e]; simpl; [| eauto].
  destruct (np.indices image_shape) as [grids|e]; simpl; [| eauto].
  destruct grids as [|y [|x [|? ?]]]; simpl; eauto.
  destruct (init_params_of m (params_to_set_of t m) []) as [items|e];
    simpl; [| eauto].
  right. by exists image0, y, x, items.
Qed.

(** The model after a call that reached the [try] block on a table with a
    row [k], the row gone through last.  Every matched parameter but the
    last has the value of that row.  The last one, the only name the
    [finally] block writes, has the value that the row gave to the matched
    parameter before it, or its own value of the row when it is the only
    matched parameter.  No pre-call value comes back. *)
Lemma make_model_sources_image_model image_shape t oversample m others lastp
    image0 y x :
  table_wf t → (0 < table_len t)%nat →
  params_to_set_of t m = others ++ [lastp] →
  np.zeros image_shape = Ok image0 →
  np.indices image_shape = Ok [y; x] →
  ∃ k, (k < table_len t)%nat
       ∧ (is_ok (make_model_sources_image image_shape t oversample m).2 = true
          → k = (table_len t - 1)%nat)
       ∧ (∀ p, p ∈ others →
            ∃ v, Row_getitem t k p = Ok v
                 ∧ (make_model_sources_image image_shape t oversample m).1 !! p
                   = Some v)
       ∧ ∃ v, Row_getitem t k (default lastp (last others)) = Ok v
              ∧ (make_model_sources_image image_shape t oversample m).1 !! lastp
                = Some v.
Proof.
  intros Hwf Hrows Hps Hz Hi.
  destruct (init_params_of_spec m (params_to_set_of t m) [])
    as (items & Hinit & _ & ->);
    [by apply params_to_set_NoDup | apply params_to_set_in_model
    | intros ? _; apply not_elem_of_nil |].
  simpl in Hinit.
  rewrite (make_model_sources_image_run _ _ _ _ _ _ _ _ Hz Hi Hinit).
  assert (Forall (λ q, q ∈ colnames t) (params_to_set_of t m)) as Hcols
    by apply params_to_set_in_table.
  assert (Forall (λ i, (i < table_len t)%nat) (seq 0 (table_len t))) as Hseq.
  { apply Forall_forall. intros i Hi'. apply elem_of_seq in Hi'. lia. }
  assert (seq 0 (table_len t) ≠ []) as Hne.
  { destruct (table_len t); [lia | done]. }
  assert (NoDup (others ++ [lastp])) as Hnd.
  { rewrite <- Hps. by apply params_to_set_NoDup. }
  pose proof (render_sources_paramnm image_shape t oversample x y others lastp
    (seq 0 (table_len t)) (Locals m image0 None) Hwf Hseq) as Hnm.
  rewrite <- Hps in Hnm. specialize (Hnm Hcols (or_introl Hne)).
  destruct (render_sources_last_row image_shape t oversample x y
    (params_to_set_of t m) (seq 0 (table_len t)) (Locals m image0 None)
    Hwf Hseq Hcols Hne) as (k & Hk & Hlast & Hvals).
  unfold try_finally.
  destruct (for_each (render_source _ _ _ _ _ _) _ _) as [st1 r1].
  simpl in Hnm, Hlast, Hvals.
  rewrite (restore_bound _ lastp st1 Hnm). rewrite Hps.
  exists k. apply elem_of_seq in Hk. split; [lia |]. split; [| split].
  - destruct r1 as [[]|e]; simpl; [| done]. intros _.
    specialize (Hlast eq_refl).
    destruct (table_len t) as [|n]; [lia |].
    rewrite seq_S, last_snoc in Hlast. simplify_eq/=. lia.
  - intros p Hp.
    destruct (Hvals p) as (v & Hrow & Hv);
      [rewrite Hps; apply elem_of_app; by left |].
    exists v. split; [done |].
    destruct r1 as [[]|e]; simpl; (rewrite foldl_setattr_other; [done |]);
      intros ->; apply NoDup_app in Hnd as (_ & Hdisj & _);
      apply (Hdisj p Hp); left.
  - destruct (Hvals (default lastp (last others))) as (v & Hrow & Hv).
    { rewrite Hps. destruct others as [|q qs _] using rev_ind.
      - simpl. left.
      - rewrite last_snoc. simpl. apply elem_of_app. left.
        apply elem_of_app. right. left. }
    exists v. split; [done |].
    destruct r1 as [[]|e]; simpl; by apply foldl_setattr_last.
Qed.

End RendererTheorems.

(** ** What the design achieves *)

Section Frame.
Context `{ModelOps}.
Implicit Types (image_shape : np.shape_arg) (t : Table) (m : Model).

(** The per-row loop touches no parameter outside [params_to_set]. *)
Lemma render_sources_frame image_shape t oversample x y ps rows st q :
  table_wf t → Forall (λ i, (i < table_len t)%nat) rows →
  Forall (λ p, p ∈ colnames t) ps → q ∉ ps →
  model (for_each (render_source image_shape t oversample ps x y) rows st).1 !! q
  = model st !! q.
Proof.
  intros Hwf Hrows Hps Hq.
  apply (for_each_invariant (λ s, model s !! q = model st !! q)); [| done].
  intros i st' Hi <-. rewrite Forall_forall in Hrows.
  destruct (render_source_spec image_shape t oversample x y ps i st' Hwf
              (Hrows i Hi) Hps) as (_ & _ & Hkeep).
  by apply Hkeep.
Qed.

(** A parameter that is not among the matched columns has its value after
    the call, whether the call returns or raises. *)
Lemma unmatched_parameter_untouched image_shape t oversample m q :
  table_wf t → (0 < table_len t)%nat → q ∉ params_to_set_of t m →
  (make_model_sources_image image_shape t oversample m).1 !! q = m !! q.
Proof.
  intros Hwf Hrows Hqps.
  destruct (make_model_sources_image_cases image_shape t oversample m)
    as [[e ->] | (image0 & y & x & items & Hz & Hi & Hinit)]; [done |].
  rewrite (make_model_sources_image_run _ _ _ _ _ _ _ _ Hz Hi Hinit).
  assert (Forall (λ i, (i < table_len t)%nat) (seq 0 (table_len t))) as Hseq.
  { apply Forall_forall. intros i Hi'. apply elem_of_seq in Hi'. lia. }
  pose proof (render_sources_frame image_shape t oversample x y
    (params_to_set_of t m) (seq 0 (table_len t)) (Locals m image0 None) q Hwf
    Hseq (params_to_set_in_table t m) Hqps) as Hframe.
  destruct (params_to_set_of t m) as [|p0 ps0] eqn:Hps using rev_ind.
  - simpl in Hinit. simplify_eq. unfold try_finally.
    destruct (for_each (render_source _ _ _ _ _ _) _ _) as [st1 r1].
    simpl in *. by destruct r1 as [[]|e].
  - clear IHps0.
    pose proof (render_sources_paramnm image_shape t oversample x y ps0 p0
      (seq 0 (table_len t)) (Locals m image0 None) Hwf Hseq) as Hnm.
    rewrite <- Hps in Hnm. rewrite Hps in Hnm at 2.
    unfold try_finally.
    destruct (for_each (render_source _ _ _ _ _ _) _ _) as [st1 r1].
    rewrite (restore_bound _ p0 st1).
    + assert (p0 ≠ q) as Hne.
      { intros ->. apply Hqps, elem_of_app. right. left. }
      destruct r1 as [[]|e]; simpl; by rewrite foldl_setattr_other.
    + apply Hnm; [apply params_to_set_in_table |].
      left. destruct (table_len t); [lia | done].
Qed.

(** With a single matched column the [finally] block assigns the parameter
    its own current value: the model after the call is the pre-call model
    with the value of the row gone through last. *)
Lemma single_matched_parameter_keeps_row_value (ny nx : Z) t oversample m p :
  0 ≤ ny → 0 ≤ nx →
  table_wf t → (0 < table_len t)%nat → params_to_set_of t m = [p] →
  ∃ k v, (k < table_len t)%nat
    ∧ (is_ok (make_model_sources_image (np.Shape [ny; nx]) t oversample m).2
         = true → k = (table_len t - 1)%nat)
    ∧ Row_getitem t k p = Ok v
    ∧ (make_model_sources_image (np.Shape [ny; nx]) t oversample m).1
      = <[p := v]> m.
Proof.
  intros Hny Hnx Hwf Hrows Hps.
  destruct (make_model_sources_image_model (np.Shape [ny; nx]) t oversample m
    [] p _ _ _ Hwf Hrows Hps (zeros_2d ny nx Hny Hnx) eq_refl)
    as (k & Hk & Hok & _ & v & Hrow & Hv).
  exists k, v. split_and!; [done | done | done |].
  apply map_eq. intros q. destruct (decide (q = p)) as [-> | Hne].
  - by rewrite lookup_insert_eq.
  - rewrite lookup_insert_ne by done.
    apply unmatched_parameter_untouched; [done | done |].
    rewrite Hps. by intros ->%list_elem_of_singleton.
Qed.
End Frame.

(** ** Restoration of the model *)

(** C1, at the input where it fails: a one-source table sets [amplitude]
    and [x_mean] of a model holding 1 and 2.  The call returns its image,
    and [amplitude] is left at the table's 10 instead of the 1 it had.
    [x_mean], the one name the [finally] block writes, is not back at 2
    either: it ends at 10, the value [amplitude] has at that moment. *)
Theorem first_matched_parameter_not_restored :
  let call :=
    @make_model_sources_image flat_ops (np.Shape [1; 1]) one_source 1%float
      two_params in
  call.2 = Ok (NdArray [1; 1] [10%float])
  ∧ two_params !! "amplitude" = Some 1%float
  ∧ call.1 !! "amplitude" = Some 10%float
  ∧ two_params !! "x_mean" = Some 2%float
  ∧ call.1 !! "x_mean" = Some 10%float.
Proof. vm_compute. by repeat split. Qed.

(** C2, amended: on a table with at least one row and at least two matched
    columns, once the grid of a shape [(ny, nx)] exists, the parameter named
    last in the per-row loop and the matched parameter before it hold one
    shared value after the call, whether the call returns or an evaluation
    raises: the value that the row gone through last (the final row when the
    call returns) has for the parameter before the last.  It is a value of
    the table, written into the last-named parameter only. *)
Theorem last_two_parameters_share_a_row_value `{ModelOps} (ny nx : Z)
    (t : Table) (oversample : float) (m : Model) (others : list string)
    (paramnm_prev paramnm_last : string) :
  0 ≤ ny → 0 ≤ nx → table_wf t → (0 < table_len t)%nat →
  params_to_set_of t m = others ++ [paramnm_prev; paramnm_last] →
  ∃ k v, (k < table_len t)%nat
    ∧ (is_ok (make_model_sources_image (np.Shape [ny; nx]) t oversample m).2
         = true → k = (table_len t - 1)%nat)
    ∧ Row_getitem t k paramnm_prev = Ok v
    ∧ (make_model_sources_image (np.Shape [ny; nx]) t oversample m).1
        !! paramnm_prev = Some v
    ∧ (make_model_sources_image (np.Shape [ny; nx]) t oversample m).1
        !! paramnm_last = Some v.
Proof.
  intros Hny Hnx Hwf Hrows Hps.
  assert (params_to_set_of t m = (others ++ [paramnm_prev]) ++ [paramnm_last])
    as Hps' by (by rewrite <- app_assoc).
  destruct (make_model_sources_image_model (np.Shape [ny; nx]) t oversample m
    (others ++ [paramnm_prev]) paramnm_last _ _ _ Hwf Hrows Hps'
    (zeros_2d ny nx Hny Hnx) eq_refl)
    as (k & Hk & Hok & Hothers & v & Hrow & Hv).
  rewrite last_snoc in Hrow. simpl in Hrow.
  exists k, v. split_and!; [done | done | done | | done].
  destruct (Hothers paramnm_prev) as (w & Hw & Hprev);
    [apply elem_of_app; right; left |].
  rewrite Hrow in Hw. by simplify_eq.
Qed.

Lemma last_two_parameters_share_a_row_value_witness :
  (@make_model_sources_image flat_ops (np.Shape [1; 1]) one_source 1%float
     two_params).1 !! "amplitude" = Some 10%float
  ∧ (@make_model_sources_image flat_ops (np.Shape [1; 1]) one_source 1%float
       two_params).1 !! "x_mean" = Some 10%float.
Proof.
  destruct (@last_two_parameters_share_a_row_value flat_ops 1 1 one_source
    1%float two_params [] "amplitude" "x_mean")
    as (k & v & Hk & _ & Hrow & Hprev & Hlast).
  - lia.
  - lia.
  - apply (bool_decide_unpack _). by vm_compute.
  - simpl. lia.
  - by vm_compute.
  - simpl in Hk. destruct k as [|k]; [| lia].
    vm_compute in Hrow. simplify_eq. by split.
Defined.

(** C2, as stated, fails: were every captured parameter left at the pre-call
    value of the last name processed, [amplitude] would be 2 after the call
    on the one-source table; it is 10. *)
Lemma shared_restoration_value_refuted :
  ¬ (∀ (ops : ModelOps) (image_shape : np.shape_arg) (t : Table)
       (oversample : float) (m : Model) (paramnm_last p : string),
        table_wf t → (0 < table_len t)%nat →
        last (params_to_set_of t m) = Some paramnm_last →
        p ∈ params_to_set_of t m →
        is_ok (make_model_sources_image image_shape t oversample m).2 = true →
        (make_model_sources_image image_shape t oversample m).1 !! p
          = m !! paramnm_last).
Proof.
  intros Hclaim.
  specialize (Hclaim flat_ops (np.Shape [1; 1]) one_source 1%float two_params
                "x_mean" "amplitude").
  assert ((10 =? 2)%float = true) as Habs; [| by vm_compute in Habs].
  assert (Some 10%float = Some 2%float) as Heq; [| by simplify_eq].
  transitivity
    ((@make_model_sources_image flat_ops (np.Shape [1; 1]) one_source 1%float
        two_params).1 !! "amplitude"); [by vm_compute |].
  rewrite Hclaim; [by vm_compute | | simpl; lia | by vm_compute | | by vm_compute].
  - apply (bool_decide_unpack _). by vm_compute.
  - vm_compute. left.
Qed.

(** C3, amended: after a successful call on a table with at least one row,
    every matched parameter other than the last has the value of the table's
    last row, and the last matched parameter, the only name the restoration
    loop writes, has the last row's value of the matched parameter before it
    (its own last-row value when it is the only one), not its own pre-call
    value: the loop assigns it the saved parameters in turn, each read at
    the time of the assignment. *)
Theorem restoration_reaches_last_matched_only `{ModelOps}
    (image_shape : np.shape_arg) (t : Table) (oversample : float)
    (m m' : Model) (img : ndarray float) (others : list string)
    (lastp : string) :
  table_wf t → (0 < table_len t)%nat →
  params_to_set_of t m = others ++ [lastp] →
  make_model_sources_image image_shape t oversample m = (m', Ok img) →
  (∃ v, Row_getitem t (table_len t - 1) (default lastp (last others)) = Ok v
        ∧ m' !! lastp = Some v)
  ∧ ∀ p, p ∈ others →
      ∃ v, Row_getitem t (table_len t - 1) p = Ok v ∧ m' !! p = Some v.
Proof.
  intros Hwf Hrows Hps Hcall.
  destruct (make_model_sources_image_cases image_shape t oversample m)
    as [[e He] | (image0 & y & x & items & Hz & Hi & Hinit)]; [congruence |].
  destruct (make_model_sources_image_model image_shape t oversample m
    others lastp image0 y x Hwf Hrows Hps Hz Hi)
    as (k & Hk & Hok & Hothers & Hlast).
  rewrite Hcall in Hok, Hothers, Hlast. simpl in Hok, Hothers, Hlast.
  rewrite (Hok eq_refl) in Hothers, Hlast. by split.
Qed.

Lemma restoration_reaches_last_matched_only_witness :
  (@make_model_sources_image flat_ops (np.Shape [1; 1]) one_source 1%float
     two_params).1 !! "x_mean" = Some 10%float
  ∧ (@make_model_sources_image flat_ops (np.Shape [1; 1]) one_source 1%float
       two_params).1 !! "amplitude" = Some 10%float.
Proof.
  destruct (@restoration_reaches_last_matched_only flat_ops (np.Shape [1; 1])
    one_source 1%float two_params
    (@make_model_sources_image flat_ops (np.Shape [1; 1]) one_source 1%float
       two_params).1
    (NdArray [1; 1] [10%float]) ["amplitude"] "x_mean")
    as [(v & Hv & Hlast) Hothers].
  - apply (bool_decide_unpack _). by vm_compute.
  - simpl. lia.
  - by vm_compute.
  - by vm_compute.
  - split.
    + vm_compute in Hv. by simplify_eq.
    + destruct (Hothers "amplitude") as (w & Hw & Hm); [left |].
      vm_compute in Hw. by simplify_eq.
Defined.

(** C3, as stated, fails: were the last matched parameter back at its own
    pre-call value after a successful call, [x_mean] would be 2 after the
    call on the one-source table; it is 10, the last row's [amplitude]. *)
Lemma last_matched_own_value_refuted :
  ¬ (∀ (ops : ModelOps) (image_shape : np.shape_arg) (t : Table)
       (oversample : float) (m m' : Model) (img : ndarray float)
       (others : list string) (lastp : string),
        table_wf t → (0 < table_len t)%nat → others ≠ [] →
        params_to_set_of t m = others ++ [lastp] →
        make_model_sources_image image_shape t oversample m = (m', Ok img) →
        m' !! lastp = m !! lastp
        ∧ ∀ p, p ∈ others →
            ∃ v, Row_getitem t (table_len t - 1) p = Ok v ∧ m' !! p = Some v).
Proof.
  intros Hclaim.
  destruct (Hclaim flat_ops (np.Shape [1; 1]) one_source 1%float two_params
    (@make_model_sources_image flat_ops (np.Shape [1; 1]) one_source 1%float
       two_params).1
    (NdArray [1; 1] [10%float]) ["amplitude"] "x_mean") as [Hlast _].
  - apply (bool_decide_unpack _). by vm_compute.
  - simpl. lia.
  - done.
  - by vm_compute.
  - by vm_compute.
  - assert ((10 =? 2)%float = true) as Habs; [| by vm_compute in Habs].
    assert (Some 10%float = Some 2%float) as Heq; [| by simplify_eq].
    transitivity
      ((@make_model_sources_image flat_ops (np.Shape [1; 1]) one_source
          1%float two_params).1 !! "x_mean"); [by vm_compute |].
    rewrite Hlast. by vm_compute.
Qed.

(** ** Tables without rows *)

(** C10: on a table without rows that has a column matching a parameter
    of the model, the call raises, whatever the shape; with a shape that
    gives a grid, the exception is the unbound [paramnm] of the [finally]
    block, not the grid of zeros. *)
Theorem no_rows_unbound_paramnm `{ModelOps} (t : Table) (oversample : float)
    (m : Model) (ny nx : Z) :
  table_len t = 0%nat → params_to_set_of t m ≠ [] → 0 ≤ ny → 0 ≤ nx →
  (∀ image_shape,
     is_ok (make_model_sources_image image_shape t oversample m).2 = false)
  ∧ make_model_sources_image (np.Shape [ny; nx]) t oversample m
    = (m, Err (Here (UnboundLocalError "paramnm"))).
Proof.
  intros Hlen Hps Hny Hnx.
  assert (∀ image_shape image0 y x,
    np.zeros image_shape = Ok image0 → np.indices image_shape = Ok [y; x] →
    make_model_sources_image image_shape t oversample m
    = (m, Err (Here (UnboundLocalError "paramnm")))) as Hrun.
  { intros image_shape image0 y x Hz Hi.
    destruct (init_params_of_nonempty m (params_to_set_of t m) [])
      as (items & Hinit & Hne); [apply params_to_set_in_model | by left |].
    rewrite (make_model_sources_image_run _ _ _ _ _ _ _ _ Hz Hi Hinit).
    rewrite Hlen. unfold try_finally. simpl.
    by rewrite restore_unbound. }
  split.
  - intros image_shape.
    destruct (make_model_sources_image_cases image_shape t oversample m)
      as [[e ->] | (image0 & y & x & items & Hz & Hi & _)]; [done |].
    by rewrite (Hrun _ _ _ _ Hz Hi).
  - eapply Hrun.
    + unfold np.zeros. simpl.
      by rewrite !(proj2 (Z.leb_le _ _)).
    + reflexivity.
Qed.

Lemma no_rows_unbound_paramnm_witness :
  @make_model_sources_image flat_ops (np.Shape [2; 3])
    [("amplitude", []); ("x_mean", [])] 1%float two_params
  = (two_params, Err (Here (UnboundLocalError "paramnm"))).
Proof.
  apply (@no_rows_unbound_paramnm flat_ops); [done | by vm_compute | lia | lia].
Defined.

(** ** The [image_shape] argument *)

(** C4, where it fails: whatever array is passed as [image_shape], it
    is handed to [np.zeros] and [np.indices] as a shape; the call raises,
    nothing is rendered or added to the array, and the model is untouched. *)
Theorem array_argument_never_accumulated `{ModelOps} (a : ndarray float)
    (t : Table) (oversample : float) (m : Model) :
  ∃ e, make_model_sources_image (np.Array a) t oversample m = (m, Err e).
Proof.
  unfold make_model_sources_image, np.zeros, np.indices. simpl.
  destruct (shape a) as [|[| |] ?]; simpl; eauto.
Qed.

(** The same on a 2 by 2 buffer of zeros. *)
Example array_argument_2x2 :
  @make_model_sources_image flat_ops
    (np.Array (NdArray [2; 2] [0; 0; 0; 0]%float)) one_source 1%float two_params
  = (two_params,
     Err (Inside "numpy.zeros"
            (TypeError "expected a sequence of integers or a single integer"))).
Proof. reflexivity. Qed.

(** C5: a shape tuple that has not exactly two dimensions makes the call
    raise a [ValueError] of its own, at the unpacking of the index grids
    into [y, x]; the model is untouched. *)
Theorem non_2d_shape_raises_ValueError `{ModelOps} (dims : list Z) (t : Table)
    (oversample : float) (m : Model) :
  length dims ≠ 2%nat → Forall (λ d, 0 ≤ d) dims →
  ∃ msg, make_model_sources_image (np.Shape dims) t oversample m
         = (m, Err (Here (ValueError msg))).
Proof.
  intros Hlen Hpos.
  assert (forallb (Z.leb 0) dims = true) as Hall.
  { apply forallb_forall. intros d Hd. apply Z.leb_le.
    rewrite Forall_forall in Hpos. apply Hpos. by apply list_elem_of_In. }
  unfold make_model_sources_image, np.zeros, np.indices. simpl.
  rewrite Hall. simpl.
  destruct dims as [|d0 [|d1 [|d2 dims]]]; simpl; eauto. done.
Qed.

Lemma non_2d_shape_raises_ValueError_witness :
  ∃ msg, @make_model_sources_image flat_ops (np.Shape [4; 5; 6]) one_source
           1%float two_params
         = (two_params, Err (Here (ValueError msg))).
Proof.
  apply (@non_2d_shape_raises_ValueError flat_ops); [simpl; lia |].
  repeat constructor; lia.
Defined.

(** ** Columns the model does not know *)

Lemma table_len_insert (t : Table) pos name col :
  length col = table_len t →
  table_len (take pos t ++ (name, col) :: drop pos t) = table_len t.
Proof. intros Hlen. by destruct pos, t. Qed.

Lemma params_to_set_insert (t : Table) (m : Model) pos name col :
  name ∉ param_names m →
  params_to_set_of (take pos t ++ (name, col) :: drop pos t) m
  = params_to_set_of t m.
Proof.
  intros Hname. unfold params_to_set_of, colnames.
  rewrite fmap_app, fmap_cons, filter_app, filter_cons_False by done.
  by rewrite <- filter_app, <- fmap_app, take_drop.
Qed.

(** C7: a column whose name is no parameter of the model, put anywhere
    in the table with one value per row, changes nothing: the same image or
    the same exception, and the same model afterwards. *)
Theorem unmatched_column_ignored `{ModelOps} (image_shape : np.shape_arg)
    (t : Table) (oversample : float) (m : Model) (pos : nat) (name : string)
    (col : list float) :
  name ∉ param_names m → length col = table_len t →
  make_model_sources_image image_shape
    (take pos t ++ (name, col) :: drop pos t) oversample m
  = make_model_sources_image image_shape t oversample m.
Proof.
  intros Hname Hlen. unfold make_model_sources_image.
  rewrite params_to_set_insert, table_len_insert by done.
  destruct (bind (np.zeros image_shape) _) as [[[[[image0 y] x] ps] items]|e]
    eqn:Hpre; [| done].
  assert (ps = params_to_set_of t m) as ->.
  { destruct (np.zeros image_shape); simpl in Hpre; [| done].
    destruct (np.indices image_shape); simpl in Hpre; [| done].
    destruct (unpack2 _); simpl in Hpre; [| done].
    destruct (init_params_of _ _ _); simpl in Hpre; by simplify_eq. }
  unfold try_finally.
  rewrite (for_each_ext
    (render_source image_shape (take pos t ++ (name, col) :: drop pos t)
       oversample (params_to_set_of t m) x y)
    (render_source image_shape t oversample (params_to_set_of t m) x y));
    [done |].
  intros i st _. unfold render_source.
  rewrite (for_each_ext (set_param (take pos t ++ (name, col) :: drop pos t) i)
             (set_param t i)); [done |].
  intros p st' Hp. unfold set_param.
  rewrite Row_getitem_insert_other; [done |].
  intros ->. apply Hname.
  by apply list_elem_of_filter in Hp as [? _].
Qed.

Lemma unmatched_column_ignored_witness :
  @make_model_sources_image flat_ops (np.Shape [1; 1])
    [("amplitude", [10%float]); ("id", [7%float]); ("x_mean", [20%float])]
    1%float two_params
  = @make_model_sources_image flat_ops (np.Shape [1; 1]) one_source 1%float
      two_params.
Proof.
  apply (@unmatched_column_ignored flat_ops (np.Shape [1; 1]) one_source
           1%float two_params 1 "id" [7%float]); [by vm_compute | done].
Defined.

(** ** The Gaussian adapter *)

Lemma deref_fresh (h : heap) (t : Table) : deref (h ++ [t]) (length h) = t.
Proof. unfold deref. by rewrite list_lookup_middle. Qed.

Lemma store_fresh (h : heap) (t t' : Table) :
  store (h ++ [t]) (length h) t' = h ++ [t'].
Proof.
  unfold store. rewrite insert_app_r_alt by lia.
  by rewrite Nat.sub_diag.
Qed.

Lemma amplitude_of_flux (flux x_stddev y_stddev : list float) i f sx sy :
  flux !! i = Some f → x_stddev !! i = Some sx → y_stddev !! i = Some sy →
  col_div flux (col_mul (scalar_mul (2 * np.pi)%float x_stddev) y_stddev) !! i
  = Some (f / (2 * np.pi * sx * sy))%float.
Proof.
  intros Hf Hx Hy. unfold col_div, col_mul, scalar_mul.
  by rewrite !lookup_zip_with, list_lookup_fmap, Hf, Hx, Hy.
Qed.

Lemma amplitude_length (t : Table) (flux x_stddev y_stddev : list float) :
  table_wf t →
  assoc "flux" t = Some flux → assoc "x_stddev" t = Some x_stddev →
  assoc "y_stddev" t = Some y_stddev →
  length (col_div flux (col_mul (scalar_mul (2 * np.pi)%float x_stddev) y_stddev))
  = table_len t.
Proof.
  intros [_ Hlen] Hf Hx Hy. rewrite Forall_forall in Hlen.
  apply assoc_Some_elem_of, Hlen in Hf, Hx, Hy. simpl in *.
  unfold col_div, col_mul, scalar_mul.
  rewrite !length_zip_with, length_fmap. lia.
Qed.

Lemma elem_of_assoc_set_keys {V} k k' (v : V) l :
  k' ∈ (assoc_set k v l).*1 → k' = k ∨ k' ∈ l.*1.
Proof.
  induction l as [|[k0 v0] l IH]; simpl.
  - intros Hin. left. by apply list_elem_of_singleton in Hin.
  - case_decide; simpl; subst; rewrite !elem_of_cons; intros [-> | Hin]; auto.
    destruct (IH Hin); auto.
Qed.

Lemma assoc_set_keys_NoDup {V} k (v : V) l :
  NoDup l.*1 → NoDup (assoc_set k v l).*1.
Proof.
  induction l as [|[k0 v0] l IH]; simpl.
  - intros _. apply NoDup_singleton.
  - rewrite NoDup_cons. intros [Hk0 Hnd].
    case_decide; simpl; subst; apply NoDup_cons; [done |].
    split; [| by apply IH].
    intros Hin. by apply elem_of_assoc_set_keys in Hin as [? | ?].
Qed.

(** C6: with a [flux] column the adapter renders a copy of the table in
    which [amplitude] holds, row by row, flux / (2 pi x_stddev y_stddev),
    whatever [amplitude] held before; the other columns are the caller's, and
    the caller's table and every other table of the store are as before. *)
Theorem flux_converted_on_a_copy `{ModelOps} (image_shape : np.shape_arg)
    (source_table : nat) (oversample : float) (h : heap) (t : Table)
    (flux x_stddev y_stddev : list float) :
  h !! source_table = Some t → table_wf t →
  assoc "flux" t = Some flux → assoc "x_stddev" t = Some x_stddev →
  assoc "y_stddev" t = Some y_stddev →
  ∃ t' amplitude,
    make_gaussian_sources_image image_shape source_table oversample h
    = (h ++ [t'],
       (make_model_sources_image image_shape t' oversample Gaussian2D).2)
    ∧ assoc "amplitude" t' = Some amplitude
    ∧ length amplitude = table_len t
    ∧ (∀ i f sx sy,
         flux !! i = Some f → x_stddev !! i = Some sx → y_stddev !! i = Some sy →
         amplitude !! i = Some (f / (2 * np.pi * sx * sy))%float)
    ∧ ("flux" ∉ colnames t')
    ∧ (∀ name, name ≠ "amplitude" → name ≠ "flux" → assoc name t' = assoc name t)
    ∧ (h ++ [t']) !! source_table = Some t
    ∧ (∀ ref, (ref < length h)%nat → (h ++ [t']) !! ref = h !! ref).
Proof.
  intros Hh Hwf Hf Hx Hy.
  set (amplitude :=
    col_div flux (col_mul (scalar_mul (2 * np.pi)%float x_stddev) y_stddev)).
  exists (assoc_del "flux" (assoc_set "amplitude" amplitude t)), amplitude.
  split_and!.
  - unfold make_gaussian_sources_image, normalize_source_table.
    assert (deref h source_table = t) as Hd by (unfold deref; by rewrite Hh).
    rewrite Hd, decide_True by (apply assoc_is_Some; by rewrite Hf).
    unfold Table_copy. rewrite Hd, deref_fresh. unfold Table_getitem.
    rewrite Hf, Hx, Hy. simpl.
    by rewrite store_fresh, deref_fresh, store_fresh, deref_fresh.
  - rewrite assoc_del_ne by done. apply assoc_set_eq.
  - by eapply amplitude_length.
  - intros i f sx sy. apply amplitude_of_flux.
  - apply assoc_del_gone, assoc_set_keys_NoDup. by destruct Hwf.
  - intros name Ha Hfl. by rewrite assoc_del_ne, assoc_set_ne.
  - rewrite lookup_app_l; [done |]. by eapply lookup_lt_Some.
  - intros ref Href. by rewrite lookup_app_l.
Qed.

Lemma flux_converted_on_a_copy_witness :
  ∃ t' amplitude,
    (@make_gaussian_sources_image flat_ops (np.Shape [1; 2]) 0 1%float
       [flux_sources]).1 = [flux_sources; t']
    ∧ assoc "amplitude" t' = Some amplitude
    ∧ amplitude !! 1%nat = Some (11 / (2 * np.pi * 2 * 0.5))%float.
Proof.
  destruct (@flux_converted_on_a_copy flat_ops (np.Shape [1; 2]) 0 1%float
    [flux_sources] flux_sources [10%float; 11%float] [1%float; 2%float]
    [1%float; 0.5%float])
    as (t' & amplitude & Hcall & Hamp & _ & Hrows & _);
    [done | | done | done | done |].
  - apply (bool_decide_unpack _). by vm_compute.
  - exists t', amplitude. rewrite Hcall. split_and!; [done | done |].
    by apply Hrows.
Defined.

(** ** Random tables *)

Section RandomTheorems.
Context `{ModelOps} `{RandomOps}.

(** The loop over the items stops at a name the model does not have, unless
    a draw raises before. *)
Lemma draw_params_unknown (model : Model) n_sources items prng0 sources :
  (∃ pnm, pnm ∈ items.*1 ∧ pnm ∉ param_names model) →
  ∃ e, draw_params model n_sources items prng0 sources = Err e
       ∧ ((∃ pnm, pnm ∈ items.*1 ∧ (pnm ∉ param_names model)
                  ∧ e = Here (unknown_parameter model pnm))
          ∨ (∃ e', e = Inside "RandomState.uniform" e')).
Proof.
  revert prng0 sources.
  induction items as [|[pnm [lower upper]] items IH];
    intros prng0 sources (bad & Hin & Hbad); [by inversion Hin |].
  simpl. case_decide as Hpnm.
  - eexists. split; [done |]. left. exists pnm. split_and!.
    + left.
    + done.
    + done.
  - destruct (uniform prng0 lower upper n_sources) as [e'|[col prng1]]; simpl.
    + eexists. split; [done |]. right. by exists e'.
    + apply elem_of_cons in Hin as [-> | Hin]; [by destruct Hbad |].
      destruct (IH prng1 (assoc_set pnm col sources))
        as (e & -> & [(q & Hq & Hqbad & ->) | [e' ->]]); [by exists bad | |].
      * eexists. split; [done |]. left. exists q.
        split_and!; [by right | done..].
      * eexists. split; [done |]. right. by exists e'.
Qed.

Lemma draw_params_unknown_total (model : Model) n_sources items prng0 sources :
  (∀ p lower upper n, ∃ drawn, uniform p lower upper n = inr drawn) →
  (∃ pnm, pnm ∈ items.*1 ∧ pnm ∉ param_names model) →
  ∃ pnm, pnm ∈ items.*1 ∧ (pnm ∉ param_names model)
         ∧ draw_params model n_sources items prng0 sources
           = Err (Here (unknown_parameter model pnm)).
Proof.
  intros Htotal Hbad.
  destruct (draw_params_unknown model n_sources items prng0 sources Hbad)
    as (e & He & [(pnm & ? & ? & ->) | [e' ->]]); [by exists pnm |].
  exfalso. clear Hbad. revert prng0 sources He.
  induction items as [|[pnm [lower upper]] items IH]; intros prng0 sources;
    simpl; [done |].
  case_decide; [done |].
  destruct (Htotal prng0 lower upper n_sources) as [drawn ->]. simpl.
  apply IH.
Qed.
End RandomTheorems.

(** C9: with a key in [param_ranges] that is no parameter of the model,
    no table is returned: the call raises.  The exception is the function's
    own [ValueError] naming such a key, unless the random source raised
    first; with a random source that does not raise it is that
    [ValueError]. *)
Theorem unknown_parameter_refused `{ModelOps} `{RandomOps} (model : Model)
    (n_sources : nat) (items : list (string * (float * float)))
    (random_state : seed) :
  (∃ pnm, pnm ∈ items.*1 ∧ pnm ∉ param_names model) →
  (∃ e, make_random_models_table model n_sources (Some items) random_state
        = Err e
        ∧ ((∃ pnm, pnm ∈ items.*1 ∧ (pnm ∉ param_names model)
                   ∧ e = Here (unknown_parameter model pnm))
           ∨ (∃ callee e', e = Inside callee e')))
  ∧ ((∀ s, ∃ p, check_random_state s = inr p) →
     (∀ p lower upper n, ∃ drawn, uniform p lower upper n = inr drawn) →
     ∃ pnm, pnm ∈ items.*1 ∧ (pnm ∉ param_names model)
            ∧ make_random_models_table model n_sources (Some items) random_state
              = Err (Here (unknown_parameter model pnm))).
Proof.
  intros Hbad. unfold make_random_models_table. split.
  - destruct (check_random_state random_state) as [e'|prng0]; simpl.
    + eexists. split; [done |]. right. by exists "check_random_state", e'.
    + destruct (draw_params_unknown model n_sources items prng0 [] Hbad)
        as (e & -> & [Hown | [e' ->]]).
      * eexists. split; [done |]. by left.
      * eexists. split; [done |]. right. by exists "RandomState.uniform", e'.
  - intros Hseed Huniform.
    destruct (Hseed random_state) as [prng0 ->]. simpl.
    by apply draw_params_unknown_total.
Qed.

Lemma unknown_parameter_refused_witness :
  @make_random_models_table flat_ops counter_ops Gaussian2D 3
    (Some [("x_mean", (0, 10)%float); ("x_0", (0, 10)%float)]) 12345
  = Err (Here (ValueError
      "Requested parameter x_0 is not in model <flat model>")).
Proof.
  destruct (@unknown_parameter_refused flat_ops counter_ops Gaussian2D 3
    [("x_mean", (0, 10)%float); ("x_0", (0, 10)%float)] 12345)
    as [_ Htotal].
  - exists "x_0". split; [by vm_compute; right; left | by vm_compute].
  - destruct Htotal as (pnm & Hin & Hbad & ->); [by eexists | by eexists |].
    apply elem_of_cons in Hin as [-> | Hin]; [by vm_compute in Hbad |].
    apply list_elem_of_singleton in Hin as ->. reflexivity.
Defined.

(** ** Poisson noise *)

Lemma any_negative_spec (a : ndarray float) :
  np.any_negative a = true ↔ ∃ x, x ∈ data a ∧ (x <? 0)%float = true.
Proof.
  unfold np.any_negative. rewrite existsb_exists.
  split; intros (x & Hin & Hneg); exists x; by rewrite list_elem_of_In in *.
Qed.

Section PoissonTheorems.
Context `{RandomOps}.

(** The draws of [poisson] are chained: the [i]-th takes the state the one
    before left and the [i]-th expectation. *)
Lemma poisson_draws (lam : list float) (prng0 prng' : prng) (ks : list Z) :
  poisson prng0 lam = inr (ks, prng') →
  length ks = length lam
  ∧ ∃ states : list prng,
      states !! 0%nat = Some prng0
      ∧ states !! length lam = Some prng'
      ∧ ∀ i x, lam !! i = Some x →
          ∃ p p' k, states !! i = Some p ∧ states !! S i = Some p'
                    ∧ poisson1 p x = inr (k, p') ∧ ks !! i = Some k.
Proof.
  revert prng0 ks. induction lam as [|x lam IH]; intros prng0 ks; simpl.
  - intros [= <- <-]. split; [done |]. exists [prng0].
    split_and!; [done | done |]. intros i x Hi. inversion Hi.
  - destruct (poisson1 prng0 x) as [e|[k prng1]] eqn:Hdraw; [done |].
    destruct (poisson prng1 lam) as [e|[ks' prng2]] eqn:Hrest; [done |].
    intros [= <- <-].
    destruct (IH prng1 ks' Hrest) as (Hlen & states & Hfirst & Hlast & Hall).
    split; [simpl; by rewrite Hlen |].
    exists (prng0 :: states). split_and!; [done | done |].
    intros [|i] y Hy; simpl in *.
    + simplify_eq. by exists prng0, prng1, k.
    + destruct (Hall i y Hy) as (p & p' & k' & ? & ? & ? & ?).
      by exists p, p', k'.
Qed.

(** When no draw on an element of [lam] raises, whatever the state of the
    generator, [poisson] returns its draws. *)
Lemma poisson_returns (lam : list float) (prng0 : prng) :
  (∀ p x, x ∈ lam → ∃ k p', poisson1 p x = inr (k, p')) →
  ∃ ks prng', poisson prng0 lam = inr (ks, prng').
Proof.
  revert prng0. induction lam as [|x lam IH]; intros prng0 Hdraw; simpl.
  - by eexists _, _.
  - destruct (Hdraw prng0 x) as (k & prng1 & ->); [left |].
    destruct (IH prng1) as (ks & prng2 & ->); [| by eexists _, _].
    intros p y Hy. apply Hdraw. by right.
Qed.
End PoissonTheorems.

(** C8: the function itself raises exactly when the data has a negative
    value, and then with its [ValueError]; data that is zero everywhere is
    not refused; an array that is returned has the shape of the data, its
    [i]-th element being one Poisson draw whose expectation is the [i]-th
    element of the data; and an array is returned for all data without a
    negative value, data that is zero everywhere included, whenever
    [check_random_state] gives a generator and no draw with an element of the
    data as expectation raises. *)
Theorem negative_data_refused `{RandomOps} (data0 : ndarray float)
    (random_state : seed) :
  (apply_poisson_noise data0 random_state
   = Err (Here (ValueError "data must not contain any negative values"))
   ↔ ∃ x, x ∈ data data0 ∧ (x <? 0)%float = true)
  ∧ (∀ e, apply_poisson_noise data0 random_state = Err (Here e) →
          e = ValueError "data must not contain any negative values")
  ∧ (Forall (λ x, x = 0%float) (data data0) →
     ∀ e, apply_poisson_noise data0 random_state ≠ Err (Here e))
  ∧ (∀ out, apply_poisson_noise data0 random_state = Ok out →
       shape out = shape data0
       ∧ length (data out) = length (data data0)
       ∧ ∃ (prng0 : prng) (states : list prng),
           check_random_state random_state = inr prng0
           ∧ states !! 0%nat = Some prng0
           ∧ ∀ i x, data data0 !! i = Some x →
               ∃ p p' k, states !! i = Some p ∧ states !! S i = Some p'
                         ∧ poisson1 p x = inr (k, p')
                         ∧ data out !! i = Some k)
  ∧ ((Forall (λ x, x = 0%float) (data data0)
      ∨ ¬ (∃ x, x ∈ data data0 ∧ (x <? 0)%float = true)) →
     (∃ prng0, check_random_state random_state = inr prng0) →
     (∀ p x, x ∈ data data0 → ∃ k p', poisson1 p x = inr (k, p')) →
     ∃ out, apply_poisson_noise data0 random_state = Ok out).
Proof.
  assert (∀ e, np.any_negative data0 = false →
               apply_poisson_noise data0 random_state ≠ Err (Here e)) as Hown.
  { intros e Hneg. unfold apply_poisson_noise. rewrite Hneg.
    destruct (check_random_state random_state) as [?|prng0]; simpl; [done |].
    by destruct (poisson prng0 (data data0)) as [?|[? ?]]. }
  split_and!.
  - rewrite <- any_negative_spec. split.
    + intros Hcall. destruct (np.any_negative data0) eqn:Hneg; [done |].
      by destruct (Hown _ eq_refl Hcall).
    + intros Hneg. unfold apply_poisson_noise. by rewrite Hneg.
  - intros e Hcall. destruct (np.any_negative data0) eqn:Hneg.
    + unfold apply_poisson_noise in Hcall. rewrite Hneg in Hcall.
      by simplify_eq.
    + by destruct (Hown e eq_refl Hcall).
  - intros Hzero e. apply Hown.
    apply not_true_is_false. rewrite any_negative_spec.
    intros (x & Hin & Hneg). rewrite Forall_forall in Hzero.
    rewrite (Hzero x Hin) in Hneg. by vm_compute in Hneg.
  - intros out. unfold apply_poisson_noise.
    destruct (np.any_negative data0); [done |].
    destruct (check_random_state random_state) as [?|prng0]; simpl; [done |].
    destruct (poisson prng0 (data data0)) as [?|[ks prng']] eqn:Hdraws;
      simpl; [done |].
    intros [= <-]. simpl.
    destruct (poisson_draws _ _ _ _ Hdraws) as (Hlen & states & Hfirst & _ & Hall).
    split_and!; [done | done |].
    by exists prng0, states.
  - intros Hdata [prng0 Hstate] Hdraw. unfold apply_poisson_noise.
    assert (np.any_negative data0 = false) as ->.
    { apply not_true_is_false. rewrite any_negative_spec.
      destruct Hdata as [Hzero | Hnone]; [| done].
      intros (x & Hin & Hneg). rewrite Forall_forall in Hzero.
      rewrite (Hzero x Hin) in Hneg. by vm_compute in Hneg. }
    rewrite Hstate. simpl.
    destruct (poisson_returns (data data0) prng0 Hdraw) as (ks & prng' & ->).
    simpl. by eexists.
Qed.

(** On a 2 by 2 array of zeros, with the counting generator: an array of
    that shape is returned. *)
Lemma negative_data_refused_witness :
  ∃ out, @apply_poisson_noise counter_ops (NdArray [2; 2] [0; 0; 0; 0]%float) 5
         = Ok out
         ∧ shape out = [2; 2] ∧ length (data out) = 4%nat.
Proof.
  destruct (@negative_data_refused counter_ops
    (NdArray [2; 2] [0; 0; 0; 0]%float) 5) as (_ & _ & _ & Hout & Hreturns).
  destruct Hreturns as [out Hcall].
  - left. by repeat constructor.
  - by eexists.
  - intros p x _. by eexists _, _.
  - exists out. split; [done |].
    destruct (Hout out Hcall) as (Hshape & Hlen & _). by split.
Defined.

(** On a 2 by 2 array of zeros with the counting generator seeded at 5. *)
Example zero_data_accepted :
  @apply_poisson_noise counter_ops (NdArray [2; 2] [0; 0; 0; 0]%float) 5
  = Ok (NdArray [2; 2] [5; 6; 7; 8]).
Proof. reflexivity. Qed.

Example negative_pixel_refused :
  @apply_poisson_noise counter_ops (NdArray [2; 2] [0; 0; (-1); 0]%float) 5
  = Err (Here (ValueError "data must not contain any negative values")).
Proof. reflexivity. Qed.

(** * Further properties of the module *)

(** ** The renderer: what it leaves alone and what it returns *)

Section RendererFrame.
Context `{ModelOps}.
Implicit Types (image_shape : np.shape_arg) (t : Table) (m : Model).

Lemma set_param_outside_kept t m ps q i p st :
  q ∉ ps → p ∈ ps → outside_kept m ps q st →
  outside_kept m ps q (set_param t i p st).1.
Proof.
  intros Hq Hp [Hm Hnm]. unfold set_param.
  destruct (Row_getitem t i p) as [v|e]; unfold outside_kept, setattr; simpl.
  - split; [| by intros ? [= <-]].
    rewrite lookup_insert_ne; [done |]. by intros ->.
  - split; [done | by intros ? [= <-]].
Qed.

Lemma render_source_outside_kept image_shape t oversample m ps x y q i st :
  q ∉ ps → outside_kept m ps q st →
  outside_kept m ps q (render_source image_shape t oversample ps x y i st).1.
Proof.
  intros Hq Hst. unfold render_source.
  pose proof (for_each_invariant (outside_kept m ps q) (set_param t i) ps st)
    as Hloop.
  destruct (for_each (set_param t i) ps st) as [st1 [[]|e]]; simpl in *.
  - destruct (bind _ _); simpl; apply Hloop; try done;
      intros; by apply set_param_outside_kept.
  - apply Hloop; try done. intros; by apply set_param_outside_kept.
Qed.

Lemma restore_outside_kept m ps q item st :
  q ∉ ps → outside_kept m ps q st → outside_kept m ps q (restore item st).1.
Proof.
  intros Hq [Hm Hnm]. unfold restore.
  destruct (paramnm st) as [p|] eqn:Hp; unfold outside_kept, setattr; simpl.
  - split; [| done].
    rewrite lookup_insert_ne; [done |]. intros ->. by apply Hq, Hnm.
  - split; [done |]. intros p. by rewrite Hp.
Qed.

Lemma make_model_sources_image_frame image_shape t oversample m q :
  q ∉ params_to_set_of t m →
  (make_model_sources_image image_shape t oversample m).1 !! q = m !! q.
Proof.
  intros Hq.
  destruct (make_model_sources_image_cases image_shape t oversample m)
    as [[e ->] | (image0 & y & x & items & Hz & Hi & Hinit)]; [done |].
  rewrite (make_model_sources_image_run _ _ _ _ _ _ _ _ Hz Hi Hinit).
  unfold try_finally.
  pose proof (for_each_invariant (outside_kept m (params_to_set_of t m) q)
    (render_source image_shape t oversample (params_to_set_of t m) x y)
    (seq 0 (table_len t)) (Locals m image0 None)) as Hbody.
  destruct (for_each (render_source _ _ _ _ _ _) _ _) as [st1 r1].
  pose proof (for_each_invariant (outside_kept m (params_to_set_of t m) q)
    restore items st1) as Hfin.
  destruct (for_each restore items st1) as [st2 r2].
  simpl in *.
  assert (outside_kept m (params_to_set_of t m) q st2) as [Hm _].
  { apply Hfin; [intros; by apply restore_outside_kept |].
    apply Hbody; [intros; by apply render_source_outside_kept |].
    by split. }
  by destruct r2 as [[]|?], r1 as [[]|?].
Qed.

(** The image grows by [np.iadd] only, which keeps its shape and size. *)
Lemma iadd_shape (a b c : ndarray float) :
  np.iadd a b = Ok c → shape c = shape a ∧ length (data c) = length (data a).
Proof.
  unfold np.iadd. destruct (np.broadcasts _ _); [| done].
  intros [= <-]. simpl. by rewrite length_imap.
Qed.

Lemma set_param_image t i p st : image (set_param t i p st).1 = image st.
Proof. unfold set_param. by destruct (Row_getitem t i p). Qed.

Lemma render_source_image_like image_shape t oversample ps x y image0 i st :
  image_like image0 st →
  image_like image0 (render_source image_shape t oversample ps x y i st).1.
Proof.
  intros Hst. unfold render_source.
  pose proof (for_each_invariant (image_like image0) (set_param t i) ps st)
    as Hloop.
  assert (image_like image0 (for_each (set_param t i) ps st).1) as Hst1.
  { apply Hloop; [| done]. intros p st' _ Hst'. unfold image_like.
    by rewrite set_param_image. }
  destruct (for_each (set_param t i) ps st) as [st1 [[]|e]]; simpl in *;
    [| done].
  destruct (evaluate _ _ _ _ _) as [r|e]; simpl; [| done].
  destruct (np.iadd (image st1) r) as [image'|e] eqn:Hadd; simpl; [| done].
  apply iadd_shape in Hadd as [Hs Hl]. destruct Hst1 as [Hs1 Hl1].
  unfold image_like. simpl. split; congruence.
Qed.

Lemma restore_image item st : image (restore item st).1 = image st.
Proof. unfold restore. by destruct (paramnm st). Qed.

Lemma zeros_shape (dims : list Z) (image0 : ndarray float) :
  np.zeros (np.Shape dims) = Ok image0 →
  shape image0 = dims ∧ length (data image0) = Z.to_nat (np.size dims).
Proof.
  unfold np.zeros. simpl. destruct (forallb _ _); [| done].
  intros [= <-]. simpl. by rewrite length_replicate.
Qed.

Lemma make_model_sources_image_shape (dims : list Z) t oversample m m' img :
  make_model_sources_image (np.Shape dims) t oversample m = (m', Ok img) →
  shape img = dims
  ∧ length dims = 2%nat
  ∧ length (data img) = Z.to_nat (np.size dims).
Proof.
  intros Hcall.
  destruct (make_model_sources_image_cases (np.Shape dims) t oversample m)
    as [[e He] | (image0 & y & x & items & Hz & Hi & Hinit)]; [congruence |].
  rewrite (make_model_sources_image_run _ _ _ _ _ _ _ _ Hz Hi Hinit) in Hcall.
  unfold try_finally in Hcall.
  pose proof (for_each_invariant (image_like image0)
    (render_source (np.Shape dims) t oversample (params_to_set_of t m) x y)
    (seq 0 (table_len t)) (Locals m image0 None)) as Hbody.
  destruct (for_each (render_source _ _ _ _ _ _) _ _) as [st1 r1].
  pose proof (for_each_invariant (image_like image0) restore items st1)
    as Hfin.
  destruct (for_each restore items st1) as [st2 r2]. simpl in *.
  assert (image_like image0 st2) as [Hs Hl].
  { apply Hfin.
    - intros it st' _ Hst'. unfold image_like. by rewrite restore_image.
    - apply Hbody; [| done].
      intros; by apply render_source_image_like. }
  destruct r2 as [[]|?], r1 as [[]|?]; simplify_eq/=.
  apply zeros_shape in Hz as [Hz1 Hz2].
  split_and!; [congruence | | congruence].
  unfold np.indices in Hi. simpl in Hi. simplify_eq/=.
  apply (f_equal length) in Hi. rewrite length_fmap, length_seq in Hi.
  done.
Qed.

End RendererFrame.

Section LoopErrors.
Context {A S : Type}.

(** An exception that leaves a loop was raised by one of its iterations. *)
Lemma for_each_errors (P : raised → Prop) (I : S → Prop)
    (body : A → S → S * result unit) (l : list A) (st : S) :
  (∀ a st', a ∈ l → I st' →
     I (body a st').1 ∧ ∀ e, (body a st').2 = Err e → P e) →
  I st →
  I (for_each body l st).1 ∧ ∀ e, (for_each body l st).2 = Err e → P e.
Proof.
  revert st. induction l as [|a l IH]; intros st Hstep Hst; simpl; [done |].
  destruct (Hstep a st (list_elem_of_here _ _) Hst) as [Hst' Herr].
  destruct (body a st) as [st' [[]|e]]; simpl in *; [| by split].
  apply IH; [| done]. intros a' st'' Hin. apply Hstep. by right.
Qed.
End LoopErrors.

Section RendererOutcome.
Context `{ModelOps}.
Implicit Types (t : Table) (m : Model).

Lemma render_source_errors (ny nx : Z) t oversample ps x y i st :
  table_wf t → (i < table_len t)%nat → Forall (λ p, p ∈ colnames t) ps →
  ∀ e, (render_source (np.Shape [ny; nx]) t oversample ps x y i st).2 = Err e →
       propagated ["model"; "discretize_model"; "numpy.add"] e.
Proof.
  intros Hwf Hi Hps e.
  destruct (set_params_spec t i ps st Hwf Hi Hps) as (st1 & Hrun & _).
  unfold render_source. rewrite Hrun. unfold evaluate, shape_getitem. simpl.
  destruct (oversample =? 1)%float.
  - destruct (model_call (model st1) x y) as [e'|r]; simpl.
    + intros [= <-]. exists "model", e'. split; [done | set_solver].
    + unfold np.iadd. destruct (np.broadcasts _ _); simpl; [done |].
      intros [= <-]. eexists _, _. split; [done | set_solver].
  - destruct (discretize_model _ _ _ _) as [e'|r]; simpl.
    + intros [= <-]. exists "discretize_model", e'. split; [done | set_solver].
    + unfold np.iadd. destruct (np.broadcasts _ _); simpl; [done |].
      intros [= <-]. eexists _, _. split; [done | set_solver].
Qed.

Lemma make_model_sources_image_errors (ny nx : Z) t oversample m :
  0 ≤ ny → 0 ≤ nx → table_wf t →
  (0 < table_len t)%nat ∨ params_to_set_of t m = [] →
  ∀ e, (make_model_sources_image (np.Shape [ny; nx]) t oversample m).2 = Err e →
       propagated ["model"; "discretize_model"; "numpy.add"] e.
Proof.
  intros Hny Hnx Hwf Hrows e.
  destruct (init_params_of_spec m (params_to_set_of t m) [])
    as (items & Hinit & Hkeys & Hvals);
    [by apply params_to_set_NoDup | apply params_to_set_in_model
    | intros ? _; apply not_elem_of_nil |].
  simpl in Hinit.
  rewrite (make_model_sources_image_run _ _ _ _ _ _ _ _
             (zeros_2d ny nx Hny Hnx) eq_refl Hinit).
  unfold try_finally.
  assert (Forall (λ i, (i < table_len t)%nat) (seq 0 (table_len t))) as Hseq.
  { apply Forall_forall. intros i Hi'. apply elem_of_seq in Hi'. lia. }
  set (x := np.index_grid [ny; nx] 1). set (y := np.index_grid [ny; nx] 0).
  set (st0 := Locals m _ None).
  destruct (for_each_errors
    (propagated ["model"; "discretize_model"; "numpy.add"]) (λ _, True)
    (render_source (np.Shape [ny; nx]) t oversample (params_to_set_of t m) x y)
    (seq 0 (table_len t)) st0) as [_ Herr]; [| done |].
  { intros i st' Hi _. split; [done |]. rewrite Forall_forall in Hseq.
    apply render_source_errors; [done | by apply Hseq |].
    apply params_to_set_in_table. }
  assert (∃ st2, for_each restore items
            (for_each (render_source (np.Shape [ny; nx]) t oversample
               (params_to_set_of t m) x y) (seq 0 (table_len t)) st0).1
          = (st2, Ok tt)) as [st2 Hfin].
  { destruct (params_to_set_of t m) as [|p0 ps0] eqn:Hps using rev_ind.
    - destruct items; [| done]. by eexists.
    - clear IHps0. destruct Hrows as [Hrows | ?];
        [| by destruct ps0].
      eexists. apply (restore_bound _ p0).
      apply render_sources_paramnm; [done | done | | ].
      + rewrite <- Hps. apply params_to_set_in_table.
      + left. destruct (table_len t); [lia | done]. }
  destruct (for_each (render_source _ _ _ _ _ _) _ _) as [st1 r1].
  simpl in *. rewrite Hfin. destruct r1 as [[]|e1]; simpl; [done |].
  intros [= <-]. by apply Herr.
Qed.

End RendererOutcome.

(** X1: a parameter of the model that is not among the matched columns has
    its pre-call value after the call, whatever the table and the shape, and
    whether the call returns or raises. *)
Theorem unmatched_parameters_keep_values `{ModelOps}
    (image_shape : np.shape_arg) (t : Table) (oversample : float) (m : Model)
    (q : string) :
  q ∉ params_to_set_of t m →
  (make_model_sources_image image_shape t oversample m).1 !! q = m !! q.
Proof. apply make_model_sources_image_frame. Qed.

Lemma unmatched_parameters_keep_values_witness :
  (@make_model_sources_image flat_ops (np.Shape [1; 1])
     [("amplitude", [10%float]); ("id", [3%float])] 1%float two_params).1
    !! "x_mean" = two_params !! "x_mean".
Proof.
  apply (@unmatched_parameters_keep_values flat_ops).
  apply (bool_decide_unpack _). by vm_compute.
Defined.

(** X2: when no column of the table names a parameter of the model, the
    model after the call is the model before it. *)
Theorem no_matched_column_model_unchanged `{ModelOps}
    (image_shape : np.shape_arg) (t : Table) (oversample : float) (m : Model) :
  params_to_set_of t m = [] →
  (make_model_sources_image image_shape t oversample m).1 = m.
Proof.
  intros Hps. apply map_eq. intros q.
  apply make_model_sources_image_frame. rewrite Hps. apply not_elem_of_nil.
Qed.

Lemma no_matched_column_model_unchanged_witness :
  (@make_model_sources_image flat_ops (np.Shape [1; 1])
     [("id", [3%float; 4%float])] 1%float two_params).1 = two_params.
Proof. by apply (@no_matched_column_model_unchanged flat_ops). Defined.

(** X3: with exactly one matched column and at least one row, the
    [finally] block assigns the parameter its own current value, so nothing
    is set back: after the call, returned or raised from an evaluation, the
    model is the pre-call model with the parameter at the value of the row
    gone through last, the final row when the call returned. *)
Theorem one_matched_column_keeps_row_value `{ModelOps} (ny nx : Z) (t : Table)
    (oversample : float) (m : Model) (p : string) :
  0 ≤ ny → 0 ≤ nx →
  table_wf t → (0 < table_len t)%nat → params_to_set_of t m = [p] →
  ∃ k v, (k < table_len t)%nat
    ∧ (is_ok (make_model_sources_image (np.Shape [ny; nx]) t oversample m).2
         = true → k = (table_len t - 1)%nat)
    ∧ Row_getitem t k p = Ok v
    ∧ (make_model_sources_image (np.Shape [ny; nx]) t oversample m).1
      = <[p := v]> m.
Proof. apply single_matched_parameter_keeps_row_value. Qed.

Lemma one_matched_column_keeps_row_value_witness :
  (@make_model_sources_image flat_ops (np.Shape [1; 1])
     [("amplitude", [(-1)%float]); ("id", [3%float])] 1%float two_params).2
  = Err (Inside "model" (ValueError "negative amplitude"))
  ∧ (@make_model_sources_image flat_ops (np.Shape [1; 1])
       [("amplitude", [(-1)%float]); ("id", [3%float])] 1%float two_params).1
    = <["amplitude" := (-1)%float]> two_params.
Proof.
  split; [by vm_compute |].
  destruct (@one_matched_column_keeps_row_value flat_ops 1 1
    [("amplitude", [(-1)%float]); ("id", [3%float])] 1%float two_params
    "amplitude") as (k & v & Hk & _ & Hrow & Hm).
  - lia.
  - lia.
  - apply (bool_decide_unpack _). by vm_compute.
  - simpl. lia.
  - by vm_compute.
  - simpl in Hk. destruct k as [|k]; [| lia].
    vm_compute in Hrow. simplify_eq. exact Hm.
Defined.

(** X4: an image that is returned for a shape tuple has that shape, which
    has two dimensions, and one pixel for each of its positions. *)
Theorem rendered_image_has_requested_shape `{ModelOps} (dims : list Z)
    (t : Table) (oversample : float) (m m' : Model) (img : ndarray float) :
  make_model_sources_image (np.Shape dims) t oversample m = (m', Ok img) →
  shape img = dims
  ∧ length dims = 2%nat
  ∧ length (data img) = Z.to_nat (np.size dims).
Proof. apply make_model_sources_image_shape. Qed.

Lemma rendered_image_has_requested_shape_witness :
  ∃ img,
    (@make_model_sources_image flat_ops (np.Shape [2; 3]) one_source 1%float
       two_params).2 = Ok img
    ∧ shape img = [2; 3] ∧ length (data img) = 6%nat.
Proof.
  set (call := @make_model_sources_image flat_ops (np.Shape [2; 3]) one_source
                 1%float two_params).
  exists (NdArray [2; 3] (replicate 6 10%float)).
  destruct (@rendered_image_has_requested_shape flat_ops [2; 3] one_source
              1%float two_params call.1
              (NdArray [2; 3] (replicate 6 10%float)))
    as (Hs & _ & Hl); [by vm_compute |].
  split_and!; [by vm_compute | exact Hs | exact Hl].
Defined.

(** X5: on a two-dimensional shape and a well-formed table that has a row
    (or no matched column), the renderer raises nothing of its own: an
    exception of the call was raised by the model, by [discretize_model] or
    by the addition to the image, and the [finally] block let it through. *)
Theorem renderer_raises_only_collaborators `{ModelOps} (ny nx : Z) (t : Table)
    (oversample : float) (m : Model) (e : raised) :
  0 ≤ ny → 0 ≤ nx → table_wf t →
  (0 < table_len t)%nat ∨ params_to_set_of t m = [] →
  (make_model_sources_image (np.Shape [ny; nx]) t oversample m).2 = Err e →
  propagated ["model"; "discretize_model"; "numpy.add"] e.
Proof.
  intros Hny Hnx Hwf Hrows.
  by apply (make_model_sources_image_errors ny nx t oversample m).
Qed.

Lemma renderer_raises_only_collaborators_witness :
  propagated ["model"; "discretize_model"; "numpy.add"]
    (Inside "model" (ValueError "negative amplitude")).
Proof.
  apply (@renderer_raises_only_collaborators flat_ops 1 1
           [("amplitude", [(-1)%float]); ("id", [3%float])] 1%float two_params).
  - lia.
  - lia.
  - apply (bool_decide_unpack _). by vm_compute.
  - left. simpl. lia.
  - by vm_compute.
Defined.

(** X6: a table without rows none of whose columns names a parameter (the
    empty table in particular) gives the grid of zeros of the shape, and the
    model is as before. *)
Theorem no_rows_no_match_gives_zeros `{ModelOps} (ny nx : Z) (t : Table)
    (oversample : float) (m : Model) :
  table_len t = 0%nat → params_to_set_of t m = [] → 0 ≤ ny → 0 ≤ nx →
  make_model_sources_image (np.Shape [ny; nx]) t oversample m
  = (m, Ok (NdArray [ny; nx] (replicate (Z.to_nat (ny * nx)) 0%float))).
Proof.
  intros Hlen Hps Hny Hnx.
  rewrite (make_model_sources_image_run _ _ _ _ _ _ _ []
             (zeros_2d ny nx Hny Hnx) eq_refl); [| by rewrite Hps].
  by rewrite Hlen.
Qed.

Lemma no_rows_no_match_gives_zeros_witness :
  @make_model_sources_image flat_ops (np.Shape [2; 3]) [] 1%float two_params
  = (two_params, Ok (NdArray [2; 3] (replicate 6 0%float))).
Proof.
  by apply (@no_rows_no_match_gives_zeros flat_ops 2 3 [] 1%float two_params).
Defined.

(** X7: of the two ways to evaluate the model only the one [oversample]
    selects is used: with [oversample == 1] the call does not depend on
    [discretize_model], otherwise it does not depend on evaluating the model
    at the pixel centres. *)
Theorem oversample_selects_the_evaluator (ops1 ops2 : ModelOps)
    (image_shape : np.shape_arg) (t : Table) (oversample : float) (m : Model) :
  (if (oversample =? 1)%float
   then ∀ m' x y, @model_call ops1 m' x y = @model_call ops2 m' x y
   else ∀ m' xr yr factor,
          @discretize_model ops1 m' xr yr factor
          = @discretize_model ops2 m' xr yr factor) →
  @make_model_sources_image ops1 image_shape t oversample m
  = @make_model_sources_image ops2 image_shape t oversample m.
Proof.
  intros Hsame. unfold make_model_sources_image.
  destruct (bind (np.zeros image_shape) _) as [[[[[image0 y] x] ps] items]|e];
    [| done].
  unfold try_finally.
  rewrite (for_each_ext
    (@render_source ops1 image_shape t oversample ps x y)
    (@render_source ops2 image_shape t oversample ps x y)); [done |].
  intros i st _. unfold render_source.
  destruct (for_each (set_param t i) ps st) as [st1 [[]|e]]; [| done].
  assert (@evaluate ops1 image_shape oversample x y st1
          = @evaluate ops2 image_shape oversample x y st1) as ->; [| done].
  unfold evaluate. destruct (oversample =? 1)%float; [by rewrite Hsame |].
  destruct (shape_getitem image_shape 1); simpl; [| done].
  destruct (shape_getitem image_shape 0); simpl; [| done].
  by rewrite Hsame.
Qed.

Lemma oversample_selects_the_evaluator_witness :
  @make_model_sources_image flat_ops (np.Shape [1; 1]) one_source 1%float
    two_params
  = @make_model_sources_image flat_ops_pixel_centres (np.Shape [1; 1])
      one_source 1%float two_params.
Proof. by apply oversample_selects_the_evaluator. Defined.

(** ** The Gaussian adapter: every way through it *)

Lemma deref_Some (h : heap) (ref : nat) (t : Table) :
  h !! ref = Some t → deref h ref = t.
Proof. intros Hh. unfold deref. by rewrite Hh. Qed.

(** The block that prepares the table, when there is a [flux] column with its
    two widths: a copy is allocated and converted. *)
Lemma normalize_flux (h : heap) (ref : nat) (t : Table)
    (flux x_stddev y_stddev : list float) :
  h !! ref = Some t →
  assoc "flux" t = Some flux → assoc "x_stddev" t = Some x_stddev →
  assoc "y_stddev" t = Some y_stddev →
  normalize_source_table ref h
  = (h ++ [assoc_del "flux"
             (assoc_set "amplitude"
                (col_div flux
                   (col_mul (scalar_mul (2 * np.pi)%float x_stddev) y_stddev))
                t)],
     Ok (length h)).
Proof.
  intros Hh Hf Hx Hy. unfold normalize_source_table.
  rewrite (deref_Some _ _ _ Hh).
  rewrite decide_True by (apply assoc_is_Some; by rewrite Hf).
  unfold Table_copy. rewrite (deref_Some _ _ _ Hh), deref_fresh.
  unfold Table_getitem. rewrite Hf, Hx, Hy. simpl.
  by rewrite store_fresh, deref_fresh, store_fresh.
Qed.

(** Without a [flux] column and with an [amplitude] column nothing is
    copied. *)
Lemma normalize_amplitude (h : heap) (ref : nat) (t : Table) :
  h !! ref = Some t → "flux" ∉ colnames t → "amplitude" ∈ colnames t →
  normalize_source_table ref h = (h, Ok ref).
Proof.
  intros Hh Hf Ha. unfold normalize_source_table.
  rewrite (deref_Some _ _ _ Hh).
  rewrite decide_False by done. by rewrite decide_False by (by intros ?).
Qed.

(** The store after the block: the tables it had, and at most one more. *)
Lemma normalize_source_table_store (h : heap) (ref : nat) :
  ∃ added, (normalize_source_table ref h).1 = h ++ added
           ∧ (length added ≤ 1)%nat.
Proof.
  unfold normalize_source_table.
  destruct (decide ("flux" ∈ colnames (deref h ref))) as [Hflux | Hflux].
  - unfold Table_copy.
    destruct (bind (Table_getitem (deref (h ++ [deref h ref]) (length h)) "flux") _)
      as [amplitude|e]; simpl.
    + rewrite deref_fresh, store_fresh, deref_fresh, store_fresh.
      eexists [_]. split; [done | simpl; lia].
    + eexists [_]. split; [done | simpl; lia].
  - exists []. rewrite app_nil_r.
    destruct (decide _); (split; [done | simpl; lia]).
Qed.

(** X8: with neither a [flux] nor an [amplitude] column the adapter raises
    its [ValueError]; nothing is rendered and the store of tables is as it
    was. *)
Theorem missing_flux_and_amplitude_refused `{ModelOps}
    (image_shape : np.shape_arg) (source_table : nat) (oversample : float)
    (h : heap) (t : Table) :
  h !! source_table = Some t →
  "flux" ∉ colnames t → "amplitude" ∉ colnames t →
  make_gaussian_sources_image image_shape source_table oversample h
  = (h, Err (Here (ValueError
       ("either " +:+ dquote +:+ "amplitude" +:+ dquote +:+ " or " +:+ dquote
          +:+ "flux" +:+ dquote
          +:+ " must be columns in the input source_table")))).
Proof.
  intros Hh Hf Ha. unfold make_gaussian_sources_image, normalize_source_table.
  rewrite (deref_Some _ _ _ Hh).
  by rewrite decide_False, decide_True by done.
Qed.

Lemma missing_flux_and_amplitude_refused_witness :
  @make_gaussian_sources_image flat_ops (np.Shape [1; 2]) 0 1%float
    [[("x_mean", [1%float]); ("y_mean", [1%float])]]
  = ([[("x_mean", [1%float]); ("y_mean", [1%float])]],
     Err (Here (ValueError
       ("either " +:+ dquote +:+ "amplitude" +:+ dquote +:+ " or " +:+ dquote
          +:+ "flux" +:+ dquote
          +:+ " must be columns in the input source_table")))).
Proof.
  apply (@missing_flux_and_amplitude_refused flat_ops (np.Shape [1; 2]) 0
           1%float _ [("x_mean", [1%float]); ("y_mean", [1%float])]);
    [done | |]; apply (bool_decide_unpack _); by vm_compute.
Defined.

(** X9: a table with an [amplitude] column and no [flux] column is rendered
    as it is, through a new Gaussian model: no copy is made and the store is
    as it was. *)
Theorem amplitude_table_rendered_as_is `{ModelOps}
    (image_shape : np.shape_arg) (source_table : nat) (oversample : float)
    (h : heap) (t : Table) :
  h !! source_table = Some t →
  "flux" ∉ colnames t → "amplitude" ∈ colnames t →
  make_gaussian_sources_image image_shape source_table oversample h
  = (h, (make_model_sources_image image_shape t oversample Gaussian2D).2).
Proof.
  intros Hh Hf Ha. unfold make_gaussian_sources_image.
  rewrite (normalize_amplitude h source_table t Hh Hf Ha).
  by rewrite (deref_Some _ _ _ Hh).
Qed.

Lemma amplitude_table_rendered_as_is_witness :
  @make_gaussian_sources_image flat_ops (np.Shape [1; 2]) 0 1%float [one_source]
  = ([one_source],
     (@make_model_sources_image flat_ops (np.Shape [1; 2]) one_source 1%float
        Gaussian2D).2).
Proof.
  apply (@amplitude_table_rendered_as_is flat_ops (np.Shape [1; 2]) 0 1%float
           _ one_source); [done | |]; apply (bool_decide_unpack _);
    by vm_compute.
Defined.

(** X10: with a [flux] column but without [x_stddev] or [y_stddev] the
    conversion raises the [KeyError] of the first of the two that is missing;
    the caller's table is untouched and the copy is all that was added to the
    store. *)
Theorem flux_without_width_raises_KeyError `{ModelOps}
    (image_shape : np.shape_arg) (source_table : nat) (oversample : float)
    (h : heap) (t : Table) :
  h !! source_table = Some t → "flux" ∈ colnames t →
  "x_stddev" ∉ colnames t ∨ "y_stddev" ∉ colnames t →
  make_gaussian_sources_image image_shape source_table oversample h
  = (h ++ [t],
     Err (Inside "Table.__getitem__"
            (KeyError (if decide ("x_stddev" ∈ colnames t)
                       then "y_stddev" else "x_stddev")))).
Proof.
  intros Hh Hf Hmissing.
  unfold make_gaussian_sources_image, normalize_source_table.
  rewrite (deref_Some _ _ _ Hh), decide_True by done.
  unfold Table_copy. rewrite (deref_Some _ _ _ Hh), deref_fresh.
  unfold Table_getitem.
  apply assoc_is_Some in Hf as [flux ->]. simpl.
  destruct (decide ("x_stddev" ∈ colnames t)) as [Hx | Hx].
  - destruct Hmissing as [Hx' | Hy]; [done |].
    apply assoc_is_Some in Hx as [xs ->]. simpl.
    apply assoc_None in Hy. by rewrite Hy.
  - apply assoc_None in Hx. by rewrite Hx.
Qed.

Lemma flux_without_width_raises_KeyError_witness :
  @make_gaussian_sources_image flat_ops (np.Shape [1; 2]) 0 1%float
    [[("flux", [10%float]); ("x_stddev", [1%float])]]
  = ([[("flux", [10%float]); ("x_stddev", [1%float])];
      [("flux", [10%float]); ("x_stddev", [1%float])]],
     Err (Inside "Table.__getitem__" (KeyError "y_stddev"))).
Proof.
  apply (@flux_without_width_raises_KeyError flat_ops (np.Shape [1; 2]) 0
           1%float [[("flux", [10%float]); ("x_stddev", [1%float])]]
           [("flux", [10%float]); ("x_stddev", [1%float])]); [done | |].
  - apply (bool_decide_unpack _). by vm_compute.
  - right. apply (bool_decide_unpack _). by vm_compute.
Defined.

(** X11: whatever the columns of the table and whatever the outcome, the
    adapter changes no table that was in the store: it adds at most the one
    copy it works on. *)
Theorem adapter_mutates_no_table `{ModelOps} (image_shape : np.shape_arg)
    (source_table : nat) (oversample : float) (h : heap) (ref : nat) :
  (ref < length h)%nat →
  (make_gaussian_sources_image image_shape source_table oversample h).1 !! ref
  = h !! ref
  ∧ (length (make_gaussian_sources_image image_shape source_table oversample
               h).1 ≤ S (length h))%nat.
Proof.
  intros Href. unfold make_gaussian_sources_image.
  destruct (normalize_source_table_store h source_table) as (added & Hst & Hlen).
  destruct (normalize_source_table source_table h) as [h' [ref'|e]];
    simpl in *; subst h'; rewrite lookup_app_l, length_app by done;
    split; (done || lia).
Qed.

Lemma adapter_mutates_no_table_witness :
  (@make_gaussian_sources_image flat_ops (np.Shape [1; 2]) 1 1%float
     [one_source; flux_sources]).1 !! 1%nat = Some flux_sources.
Proof.
  by apply (@adapter_mutates_no_table flat_ops (np.Shape [1; 2]) 1 1%float
              [one_source; flux_sources] 1); simpl; lia.
Defined.

(** X12: sources given by their flux render as the same sources given by
    the amplitude flux / (2 pi x_stddev y_stddev): the image (or exception)
    for a table with a [flux] column is the one for the table in which
    [amplitude] holds those values and [flux] is removed. *)
Theorem flux_renders_as_its_amplitude `{ModelOps} (image_shape : np.shape_arg)
    (source_table : nat) (oversample : float) (h : heap) (t : Table)
    (flux x_stddev y_stddev : list float) :
  h !! source_table = Some t → table_wf t →
  assoc "flux" t = Some flux → assoc "x_stddev" t = Some x_stddev →
  assoc "y_stddev" t = Some y_stddev →
  (make_gaussian_sources_image image_shape source_table oversample h).2
  = (make_gaussian_sources_image image_shape 0 oversample
       [assoc_del "flux"
          (assoc_set "amplitude"
             (col_div flux
                (col_mul (scalar_mul (2 * np.pi)%float x_stddev) y_stddev))
             t)]).2.
Proof.
  intros Hh [Hnd _] Hf Hx Hy.
  unfold make_gaussian_sources_image at 1.
  rewrite (normalize_flux h source_table t flux x_stddev y_stddev Hh Hf Hx Hy).
  rewrite deref_fresh. simpl.
  unfold make_gaussian_sources_image.
  set (t' := assoc_del "flux" _).
  rewrite (normalize_amplitude [t'] 0 t'); [done | done | |]; subst t'.
  - by apply assoc_del_gone, assoc_set_keys_NoDup.
  - apply assoc_is_Some. rewrite assoc_del_ne by done.
    by rewrite assoc_set_eq.
Qed.

Lemma flux_renders_as_its_amplitude_witness :
  (@make_gaussian_sources_image flat_ops (np.Shape [1; 2]) 0 1%float
     [flux_sources]).2
  = (@make_gaussian_sources_image flat_ops (np.Shape [1; 2]) 0 1%float
       [[("amplitude", [(10 / (2 * np.pi * 1 * 1))%float;
                        (11 / (2 * np.pi * 2 * 0.5))%float]);
         ("x_stddev", [1%float; 2%float]);
         ("y_stddev", [1%float; 0.5%float])]]).2.
Proof.
  apply (@flux_renders_as_its_amplitude flat_ops (np.Shape [1; 2]) 0 1%float
           [flux_sources] flux_sources [10%float; 11%float]
           [1%float; 2%float] [1%float; 0.5%float]); try done.
  apply (bool_decide_unpack _). by vm_compute.
Defined.

(** ** Random tables: what a returned table holds *)

Section RandomTableFacts.
Context `{ModelOps} `{RandomOps}.

Lemma colnames_assoc_set_fresh (t : Table) name col :
  name ∉ colnames t → colnames (assoc_set name col t) = colnames t ++ [name].
Proof.
  intros Hname. unfold colnames in *.
  by rewrite assoc_set_fresh, fmap_app.
Qed.

Lemma draw_params_ok (model : Model) n_sources items prng0 sources t :
  draw_params model n_sources items prng0 sources = Ok t →
  NoDup items.*1 → (∀ k, k ∈ items.*1 → k ∉ colnames sources) →
  colnames t = colnames sources ++ items.*1
  ∧ Forall (λ k, k ∈ param_names model) items.*1
  ∧ (∀ k, k ∉ items.*1 → assoc k t = assoc k sources)
  ∧ (∀ pnm lower upper, (pnm, (lower, upper)) ∈ items →
       ∃ p col p', uniform p lower upper n_sources = inr (col, p')
                   ∧ assoc pnm t = Some col).
Proof.
  revert prng0 sources.
  induction items as [|[pnm [lower upper]] items IH]; intros prng0 sources;
    simpl.
  - intros [= <-] _ _. rewrite app_nil_r.
    split_and!; [done | done | done |]. intros ??? Hin. inversion Hin.
  - case_decide as Hpnm; [done |].
    destruct (uniform prng0 lower upper n_sources) as [e|[col prng1]] eqn:Hdraw;
      simpl; [done |].
    intros Hrest [Hfresh Hnd]%NoDup_cons Hnew.
    destruct (IH _ _ Hrest Hnd) as (Hcols & Hknown & Hkeep & Hdrawn).
    { intros k Hk. rewrite colnames_assoc_set_fresh by (apply Hnew; left).
      rewrite not_elem_of_app. split; [apply Hnew; by right |].
      intros ->%list_elem_of_singleton. done. }
    rewrite colnames_assoc_set_fresh in Hcols by (apply Hnew; left).
    split_and!.
    + by rewrite Hcols, <- app_assoc.
    + apply Forall_cons. split; [| done].
      by destruct (decide (pnm ∈ param_names model)).
    + intros k [Hk1 Hk2]%not_elem_of_cons.
      rewrite Hkeep by done. by rewrite assoc_set_ne.
    + intros pnm' lower' upper' [[= -> -> ->] | Hin]%elem_of_cons.
      * exists prng0, col, prng1. split; [done |].
        rewrite Hkeep by done. apply assoc_set_eq.
      * by apply Hdrawn.
Qed.
End RandomTableFacts.

(** X13: a table that [make_random_models_table] returns has the keys of
    [param_ranges] as its columns, in their order; every key is a parameter
    of the model, and the column of a key is a uniform draw of [n_sources]
    values between the bounds given for that key. *)
Theorem random_table_has_requested_columns `{ModelOps} `{RandomOps}
    (model : Model) (n_sources : nat)
    (items : list (string * (float * float))) (random_state : seed)
    (t : Table) :
  NoDup items.*1 →
  make_random_models_table model n_sources (Some items) random_state = Ok t →
  colnames t = items.*1
  ∧ Forall (λ k, k ∈ param_names model) items.*1
  ∧ (∀ pnm lower upper, (pnm, (lower, upper)) ∈ items →
       ∃ p col p', uniform p lower upper n_sources = inr (col, p')
                   ∧ assoc pnm t = Some col).
Proof.
  intros Hnd. unfold make_random_models_table.
  destruct (check_random_state random_state) as [e|prng0]; simpl; [done |].
  intros Hdraw.
  destruct (draw_params_ok model n_sources items prng0 [] t Hdraw Hnd)
    as (Hcols & Hknown & _ & Hdrawn); [intros ? _; apply not_elem_of_nil |].
  by split_and!.
Qed.

Lemma random_table_has_requested_columns_witness :
  colnames [("x_mean", [0; 0; 0]%float); ("amplitude", [1; 1; 1]%float)]
  = ["x_mean"; "amplitude"].
Proof.
  destruct (@random_table_has_requested_columns flat_ops counter_ops two_params
    3 [("x_mean", (0, 10)%float); ("amplitude", (1, 2)%float)] 12345
    [("x_mean", [0; 0; 0]%float); ("amplitude", [1; 1; 1]%float)])
    as (Hcols & _); [| by vm_compute | exact Hcols].
  apply (bool_decide_unpack _). by vm_compute.
Defined.

(** X14: the renderer applies every column of a table that
    [make_random_models_table] returned for the same model: its matched
    columns are all the columns of the table. *)
Theorem random_table_columns_all_matched `{ModelOps} `{RandomOps}
    (model : Model) (n_sources : nat)
    (items : list (string * (float * float))) (random_state : seed)
    (t : Table) :
  NoDup items.*1 →
  make_random_models_table model n_sources (Some items) random_state = Ok t →
  params_to_set_of t model = colnames t.
Proof.
  intros Hnd. unfold make_random_models_table.
  destruct (check_random_state random_state) as [e|prng0]; simpl; [done |].
  intros Hdraw.
  destruct (draw_params_ok model n_sources items prng0 [] t Hdraw Hnd)
    as (Hcols & Hknown & _); [intros ? _; apply not_elem_of_nil |].
  simpl in Hcols. unfold params_to_set_of. rewrite Hcols.
  clear -Hknown. induction Hknown as [|k ks Hk _ IH]; [done |].
  by rewrite filter_cons_True, IH.
Qed.

Lemma random_table_columns_all_matched_witness :
  params_to_set_of [("x_mean", [0; 0; 0]%float); ("amplitude", [1; 1; 1]%float)]
    two_params = ["x_mean"; "amplitude"].
Proof.
  apply (@random_table_columns_all_matched flat_ops counter_ops two_params
    3 [("x_mean", (0, 10)%float); ("amplitude", (1, 2)%float)] 12345).
  - apply (bool_decide_unpack _). by vm_compute.
  - by vm_compute.
Defined.

(** ** Noise images *)

(** The message for an unknown [type] is never built: its template has the
    braces of the set of supported types, which [format] reads as a field
    named by a keyword. *)
Lemma invalid_type_message (type : string) :
  str_format invalid_type_template [type]
  = Err (Inside "str.format"
           (KeyError (dquote +:+ "gaussian" +:+ dquote +:+ ", " +:+ dquote
                        +:+ "poisson" +:+ dquote))).
Proof. reflexivity. Qed.

Lemma draw_count_ok (callee : string) (image_shape : list Z) (n : nat) :
  draw_count callee image_shape = Ok n → n = Z.to_nat (np.size image_shape).
Proof. unfold draw_count. destruct (forallb _ _); by intros [= <-]. Qed.

Lemma draw_count_cases (callee : string) (image_shape : list Z) :
  (∃ n, draw_count callee image_shape = Ok n)
  ∨ (∃ e, draw_count callee image_shape = Err (Inside callee e)).
Proof. unfold draw_count. destruct (forallb _ _); eauto. Qed.

Section NoiseFacts.
Context `{RandomOps} `{!NoiseOps}.

Lemma normal_draws (loc scale : float) (n : nat) (prng0 prng' : prng)
    (vs : list float) :
  normal prng0 loc scale n = inr (vs, prng') →
  length vs = n
  ∧ ∀ i v, vs !! i = Some v → ∃ p p', normal1 p loc scale = inr (v, p').
Proof.
  revert prng0 vs. induction n as [|n IH]; intros prng0 vs; simpl.
  - intros [= <- <-]. split; [done |]. intros i v Hi. inversion Hi.
  - destruct (normal1 prng0 loc scale) as [e|[v0 prng1]] eqn:Hdraw; [done |].
    destruct (normal prng1 loc scale n) as [e|[vs' prng2]] eqn:Hrest; [done |].
    intros [= <- <-]. destruct (IH _ _ Hrest) as [Hlen Hall].
    split; [simpl; by rewrite Hlen |].
    intros [|i] v Hv; simpl in *; [| by eapply Hall].
    simplify_eq. by exists prng0, prng1.
Qed.

Lemma poisson_same_lam (lam : float) (n : nat) (prng0 prng' : prng)
    (ks : list Z) :
  poisson prng0 (replicate n lam) = inr (ks, prng') →
  length ks = n
  ∧ ∀ i k, ks !! i = Some k → ∃ p p', poisson1 p lam = inr (k, p').
Proof.
  intros Hdraws.
  destruct (poisson_draws _ _ _ _ Hdraws) as (Hlen & states & _ & _ & Hall).
  rewrite length_replicate in Hlen. split; [done |].
  intros i k Hk.
  assert (replicate n lam !! i = Some lam) as Hlam.
  { apply lookup_replicate_2. apply lookup_lt_Some in Hk. lia. }
  destruct (Hall i lam Hlam) as (p & p' & k' & _ & _ & Hdraw & Hk').
  simplify_eq. by exists p, p'.
Qed.
End NoiseFacts.

(** X15: [make_noise_image] raises an exception of its own in two cases
    only: [mean] is missing, or the type is [gaussian] and [stddev] is
    missing (the random state having been accepted).  In particular it has
    no exception of its own for an unknown type. *)
Theorem noise_own_exceptions `{RandomOps} `{!NoiseOps} (image_shape : list Z)
    (type : string) (mean stddev : option float) (random_state : seed)
    (e : pyexc) :
  make_noise_image image_shape type mean stddev random_state = Err (Here e)
  ↔ (mean = None
     ∧ e = ValueError (dquote +:+ "mean" +:+ dquote +:+ " must be input"))
    ∨ (is_Some mean ∧ (∃ p, check_random_state random_state = inr p)
       ∧ type = "gaussian" ∧ stddev = None
       ∧ e = ValueError
              (dquote +:+ "stddev" +:+ dquote
                 +:+ " must be input for Gaussian noise")).
Proof.
  unfold make_noise_image. destruct mean as [mu|].
  - destruct (check_random_state random_state) as [e'|prng0]; simpl.
    { split; [done |]. intros [[? _] | (_ & [p ?] & _)]; congruence. }
    destruct (decide (type = "gaussian")) as [-> | Hg].
    + destruct stddev as [sd|].
      * split; [| intros [[? _] | (_ & _ & _ & ? & _)]; done].
        destruct (draw_count_cases "RandomState.normal" image_shape)
          as [[n ->] | [e' ->]]; simpl; [| done].
        by destruct (normal prng0 mu sd n) as [?|[? ?]].
      * split.
        -- intros [= <-]. right. split_and!; eauto.
        -- by intros [[? _] | (_ & _ & _ & _ & ->)].
    + split; [| intros [[? _] | (_ & _ & ? & _)]; done].
      destruct (decide (type = "poisson")).
      * destruct (draw_count_cases "RandomState.poisson" image_shape)
          as [[n ->] | [e' ->]]; simpl; [| done].
        by destruct (poisson prng0 (replicate n mu)) as [?|[? ?]].
      * intros Hcall. discriminate Hcall.
  - split.
    + intros [= <-]. by left.
    + intros [[_ ->] | ([? ?] & _)]; done.
Qed.

(** X16: for a type that is neither [gaussian] nor [poisson] no image is
    returned, and the exception is not the [ValueError] that lists the
    supported types: building its message raises the [KeyError] of
    [str.format]. *)
Theorem unknown_noise_type_raises_KeyError `{RandomOps} `{!NoiseOps}
    (image_shape : list Z) (type : string) (mean : float)
    (stddev : option float) (random_state : seed) (p : prng) :
  type ≠ "gaussian" → type ≠ "poisson" →
  check_random_state random_state = inr p →
  make_noise_image image_shape type (Some mean) stddev random_state
  = Err (Inside "str.format"
           (KeyError (dquote +:+ "gaussian" +:+ dquote +:+ ", " +:+ dquote
                        +:+ "poisson" +:+ dquote))).
Proof.
  intros Hg Hp Hseed. unfold make_noise_image. rewrite Hseed. simpl.
  by rewrite !decide_False by done.
Qed.

Lemma unknown_noise_type_raises_KeyError_witness :
  @make_noise_image counter_ops counter_noise [2; 2] "uniform" (Some 5%float)
    None 12345
  = Err (Inside "str.format"
           (KeyError (dquote +:+ "gaussian" +:+ dquote +:+ ", " +:+ dquote
                        +:+ "poisson" +:+ dquote))).
Proof.
  by apply (@unknown_noise_type_raises_KeyError counter_ops counter_noise
              [2; 2] "uniform" 5%float None 12345 12345).
Defined.

(** X17: a noise image that is returned has the requested shape and one
    value for each of its positions; it holds normal draws of the given mean
    and standard deviation when the type is [gaussian], and Poisson draws of
    the given mean when the type is [poisson]. *)
Theorem noise_image_shape_and_draws `{RandomOps} `{!NoiseOps}
    (image_shape : list Z) (type : string) (mean stddev : option float)
    (random_state : seed) (img : noise_image) :
  make_noise_image image_shape type mean stddev random_state = Ok img →
  ∃ mu, mean = Some mu
    ∧ ((type = "gaussian"
        ∧ ∃ sd a, stddev = Some sd ∧ img = FloatImage a
            ∧ shape a = image_shape
            ∧ length (data a) = Z.to_nat (np.size image_shape)
            ∧ ∀ i v, data a !! i = Some v →
                ∃ p p', normal1 p mu sd = inr (v, p'))
       ∨ (type = "poisson"
          ∧ ∃ a, img = IntImage a
              ∧ shape a = image_shape
              ∧ length (data a) = Z.to_nat (np.size image_shape)
              ∧ ∀ i k, data a !! i = Some k →
                  ∃ p p', poisson1 p mu = inr (k, p'))).
Proof.
  unfold make_noise_image. destruct mean as [mu|]; [| done].
  destruct (check_random_state random_state) as [e'|prng0]; simpl; [done |].
  intros Hcall. exists mu. split; [done |].
  destruct (decide (type = "gaussian")) as [-> | Hg].
  - left. split; [done |]. destruct stddev as [sd|]; [| done].
    destruct (draw_count _ _) as [n|] eqn:Hn; simpl in Hcall; [| done].
    destruct (normal prng0 mu sd n) as [?|[vs prng']] eqn:Hdraws;
      simpl in Hcall; [done |].
    simplify_eq. apply draw_count_ok in Hn as ->.
    destruct (normal_draws _ _ _ _ _ _ Hdraws) as [Hlen Hall].
    by exists sd, (NdArray image_shape vs).
  - right. destruct (decide (type = "poisson")) as [-> | Hp].
    + split; [done |].
      destruct (draw_count _ _) as [n|] eqn:Hn; simpl in Hcall; [| done].
      destruct (poisson prng0 (replicate n mu)) as [?|[ks prng']] eqn:Hdraws;
        simpl in Hcall; [done |].
      simplify_eq. apply draw_count_ok in Hn as ->.
      destruct (poisson_same_lam _ _ _ _ _ Hdraws) as [Hlen Hall].
      by exists (NdArray image_shape ks).
    + discriminate Hcall.
Qed.

Lemma noise_image_shape_and_draws_witness :
  ∃ a, @make_noise_image counter_ops counter_noise [2; 2] "poisson"
         (Some 5%float) None 7 = Ok (IntImage a)
       ∧ shape a = [2; 2] ∧ length (data a) = 4%nat.
Proof.
  destruct (@noise_image_shape_and_draws counter_ops counter_noise [2; 2]
    "poisson" (Some 5%float) None 7
    (IntImage (NdArray [2; 2] [7; 8; 9; 10])))
    as (mu & _ & [[Hg _] | (_ & a & Himg & Hs & Hl & _)]);
    [by vm_compute | done |].
  exists a. split_and!; [by rewrite <- Himg | done | done].
Defined.

(** ** Random Gaussian sources *)

Section GaussiansTableFacts.
Context `{RandomOps}.

(** The table [make_random_gaussians_table] returns, column by column. *)
Lemma make_random_gaussians_table_ok (n_sources : nat)
    (flux_range xmean_range ymean_range xstddev_range ystddev_range
       : float * float)
    (amplitude_range : option (float * float)) (random_state : seed)
    (t : Table) :
  make_random_gaussians_table n_sources flux_range xmean_range ymean_range
    xstddev_range ystddev_range amplitude_range random_state = Ok t →
  ∃ p0 p1 p2 p3 p4 p5 p6 c1 c2 c3 c4 c5 c6,
    uniform p0 (default flux_range amplitude_range).1
      (default flux_range amplitude_range).2 n_sources = inr (c1, p1)
    ∧ uniform p1 xmean_range.1 xmean_range.2 n_sources = inr (c2, p2)
    ∧ uniform p2 ymean_range.1 ymean_range.2 n_sources = inr (c3, p3)
    ∧ uniform p3 xstddev_range.1 xstddev_range.2 n_sources = inr (c4, p4)
    ∧ uniform p4 ystddev_range.1 ystddev_range.2 n_sources = inr (c5, p5)
    ∧ uniform p5 0%float (2 * np.pi)%float n_sources = inr (c6, p6)
    ∧ t = [(match amplitude_range with
            | Some _ => "amplitude"
            | None => "flux"
            end, c1);
           ("x_mean", c2); ("y_mean", c3); ("x_stddev", c4);
           ("y_stddev", c5); ("theta", c6)].
Proof.
  unfold make_random_gaussians_table, draw_column.
  destruct (check_random_state random_state) as [e|p0]; simpl; [done |].
  intros Hcall. exists p0.
  destruct amplitude_range as [amplitude_range|]; simpl in *.
  - destruct (uniform p0 _ _ _) as [e|[c1 p1]] eqn:H1; simpl in *; [done |].
    destruct (uniform p1 _ _ _) as [e|[c2 p2]] eqn:H2; simpl in *; [done |].
    destruct (uniform p2 _ _ _) as [e|[c3 p3]] eqn:H3; simpl in *; [done |].
    destruct (uniform p3 _ _ _) as [e|[c4 p4]] eqn:H4; simpl in *; [done |].
    destruct (uniform p4 _ _ _) as [e|[c5 p5]] eqn:H5; simpl in *; [done |].
    destruct (uniform p5 _ _ _) as [e|[c6 p6]] eqn:H6; simpl in *; [done |].
    simplify_eq. by exists p1, p2, p3, p4, p5, p6, c1, c2, c3, c4, c5, c6.
  - destruct (uniform p0 _ _ _) as [e|[c1 p1]] eqn:H1; simpl in *; [done |].
    destruct (uniform p1 _ _ _) as [e|[c2 p2]] eqn:H2; simpl in *; [done |].
    destruct (uniform p2 _ _ _) as [e|[c3 p3]] eqn:H3; simpl in *; [done |].
    destruct (uniform p3 _ _ _) as [e|[c4 p4]] eqn:H4; simpl in *; [done |].
    destruct (uniform p4 _ _ _) as [e|[c5 p5]] eqn:H5; simpl in *; [done |].
    destruct (uniform p5 _ _ _) as [e|[c6 p6]] eqn:H6; simpl in *; [done |].
    simplify_eq. by exists p1, p2, p3, p4, p5, p6, c1, c2, c3, c4, c5, c6.
Qed.
End GaussiansTableFacts.

(** X18: a table that [make_random_gaussians_table] returns has six columns:
    [amplitude] when an amplitude range is given and [flux] otherwise, drawn
    from that range (the flux range is not used when an amplitude range is
    given), then [x_mean], [y_mean], [x_stddev], [y_stddev] and [theta], the
    last drawn between 0 and 2 pi whatever the ranges. *)
Theorem gaussians_table_columns `{RandomOps} (n_sources : nat)
    (flux_range xmean_range ymean_range xstddev_range ystddev_range
       : float * float)
    (amplitude_range : option (float * float)) (random_state : seed)
    (t : Table) :
  make_random_gaussians_table n_sources flux_range xmean_range ymean_range
    xstddev_range ystddev_range amplitude_range random_state = Ok t →
  let first := match amplitude_range with
               | Some _ => "amplitude"
               | None => "flux"
               end in
  let range := default flux_range amplitude_range in
  colnames t = [first; "x_mean"; "y_mean"; "x_stddev"; "y_stddev"; "theta"]
  ∧ (∃ p col p', uniform p range.1 range.2 n_sources = inr (col, p')
                 ∧ assoc first t = Some col)
  ∧ (∃ p col p', uniform p 0%float (2 * np.pi)%float n_sources = inr (col, p')
                 ∧ assoc "theta" t = Some col).
Proof.
  intros Hcall.
  destruct (make_random_gaussians_table_ok _ _ _ _ _ _ _ _ _ Hcall)
    as (p0 & p1 & p2 & p3 & p4 & p5 & p6 & c1 & c2 & c3 & c4 & c5 & c6
        & H1 & _ & _ & _ & _ & H6 & ->).
  simpl. split_and!.
  - done.
  - exists p0, c1, p1. split; [done |]. by destruct amplitude_range.
  - exists p5, c6, p6. split; [done |]. by destruct amplitude_range.
Qed.

Lemma gaussians_table_columns_witness :
  colnames [("amplitude", [3; 3]%float); ("x_mean", [0; 0]%float);
            ("y_mean", [0; 0]%float); ("x_stddev", [1; 1]%float);
            ("y_stddev", [1; 1]%float); ("theta", [0; 0]%float)]
  = ["amplitude"; "x_mean"; "y_mean"; "x_stddev"; "y_stddev"; "theta"].
Proof.
  destruct (@gaussians_table_columns counter_ops 2 (500, 1000)%float
    (0, 500)%float (0, 300)%float (1, 5)%float (1, 5)%float
    (Some (3, 4)%float) 7
    [("amplitude", [3; 3]%float); ("x_mean", [0; 0]%float);
     ("y_mean", [0; 0]%float); ("x_stddev", [1; 1]%float);
     ("y_stddev", [1; 1]%float); ("theta", [0; 0]%float)])
    as (Hcols & _); [by vm_compute | exact Hcols].
Defined.

(** X19: the Gaussian adapter accepts every table that
    [make_random_gaussians_table] returns: its preparation of the columns
    ends without the [ValueError] for a missing [flux] or [amplitude] and
    without a [KeyError] for a missing width. *)
Theorem gaussians_table_accepted_by_adapter `{RandomOps} (n_sources : nat)
    (flux_range xmean_range ymean_range xstddev_range ystddev_range
       : float * float)
    (amplitude_range : option (float * float)) (random_state : seed)
    (t : Table) (h : heap) (ref : nat) :
  make_random_gaussians_table n_sources flux_range xmean_range ymean_range
    xstddev_range ystddev_range amplitude_range random_state = Ok t →
  h !! ref = Some t →
  is_ok (normalize_source_table ref h).2 = true.
Proof.
  intros Hcall Hh.
  destruct (make_random_gaussians_table_ok _ _ _ _ _ _ _ _ _ Hcall)
    as (p0 & p1 & p2 & p3 & p4 & p5 & p6 & c1 & c2 & c3 & c4 & c5 & c6
        & _ & _ & _ & _ & _ & _ & ->).
  destruct amplitude_range.
  - rewrite (normalize_amplitude h ref _ Hh); [done | |];
      apply (bool_decide_unpack _); by vm_compute.
  - by rewrite (normalize_flux h ref _ c1 c4 c5 Hh).
Qed.

Lemma gaussians_table_accepted_by_adapter_witness :
  is_ok (normalize_source_table 0
           [[("flux", [500; 500]%float); ("x_mean", [0; 0]%float);
             ("y_mean", [0; 0]%float); ("x_stddev", [1; 1]%float);
             ("y_stddev", [1; 1]%float); ("theta", [0; 0]%float)]]).2 = true.
Proof.
  apply (@gaussians_table_accepted_by_adapter counter_ops 2 (500, 1000)%float
    (0, 500)%float (0, 300)%float (1, 5)%float (1, 5)%float None 7
    [("flux", [500; 500]%float); ("x_mean", [0; 0]%float);
     ("y_mean", [0; 0]%float); ("x_stddev", [1; 1]%float);
     ("y_stddev", [1; 1]%float); ("theta", [0; 0]%float)]);
    [by vm_compute | done].
Defined.

(** X20: when every uniform draw of [n] values has [n] values, as numpy's
    have, a table that [make_random_gaussians_table] returns is well formed
    and has [n_sources] rows. *)
Theorem gaussians_table_rows `{RandomOps} (n_sources : nat)
    (flux_range xmean_range ymean_range xstddev_range ystddev_range
       : float * float)
    (amplitude_range : option (float * float)) (random_state : seed)
    (t : Table) :
  (∀ p lower upper n col p',
     uniform p lower upper n = inr (col, p') → length col = n) →
  make_random_gaussians_table n_sources flux_range xmean_range ymean_range
    xstddev_range ystddev_range amplitude_range random_state = Ok t →
  table_wf t ∧ table_len t = n_sources.
Proof.
  intros Hlen Hcall.
  destruct (make_random_gaussians_table_ok _ _ _ _ _ _ _ _ _ Hcall)
    as (p0 & p1 & p2 & p3 & p4 & p5 & p6 & c1 & c2 & c3 & c4 & c5 & c6
        & H1%Hlen & H2%Hlen & H3%Hlen & H4%Hlen & H5%Hlen & H6%Hlen & ->).
  split; [| done]. split.
  - destruct amplitude_range; apply (bool_decide_unpack _); by vm_compute.
  - unfold table_len. simpl.
    repeat (apply Forall_cons_2; [simpl; congruence |]).
    apply Forall_nil_2.
Qed.

Lemma gaussians_table_rows_witness :
  table_len [("flux", [500; 500]%float); ("x_mean", [0; 0]%float);
             ("y_mean", [0; 0]%float); ("x_stddev", [1; 1]%float);
             ("y_stddev", [1; 1]%float); ("theta", [0; 0]%float)] = 2%nat.
Proof.
  apply (@gaussians_table_rows counter_ops 2 (500, 1000)%float
    (0, 500)%float (0, 300)%float (1, 5)%float (1, 5)%float None 7).
  - intros p lower upper n col p' [= <- _]. apply length_replicate.
  - by vm_compute.
Defined.

(** ** FITS images *)

(** X21: [make_imagehdu] raises an exception of its own exactly when the
    data has not two dimensions, whatever the transform; it is its
    [ValueError]. *)
Theorem imagehdu_refuses_non_2d `{FitsOps} (data0 : ndarray float)
    (wcs : option WCS) (e : pyexc) :
  make_imagehdu data0 wcs = Err (Here e)
  ↔ length (shape data0) ≠ 2%nat ∧ e = ValueError "data must be a 2D array".
Proof.
  unfold make_imagehdu. case_decide as Hnd.
  - split; [by intros [= <-] | by intros [_ ->]].
  - split; [| by intros [? _]].
    destruct wcs as [w|]; simpl.
    + destruct (to_header w); simpl; [done |].
      by destruct (ImageHDU data0 _).
    + by destruct (ImageHDU data0 None).
Qed.

(** X22: an image the renderer returns for a shape tuple is always accepted
    by [make_imagehdu]: without a transform the outcome is that of building
    the container from the image with no header. *)
Theorem rendered_image_is_packaged `{ModelOps} `{FitsOps} (dims : list Z)
    (t : Table) (oversample : float) (m m' : Model) (img : ndarray float) :
  make_model_sources_image (np.Shape dims) t oversample m = (m', Ok img) →
  make_imagehdu img None = calling "fits.ImageHDU" (ImageHDU img None)
  ∧ ∀ wcs e, make_imagehdu img wcs ≠ Err (Here e).
Proof.
  intros Hcall.
  destruct (make_model_sources_image_shape dims t oversample m m' img Hcall)
    as (Hs & Hd & _).
  assert (length (shape img) = 2%nat) as Hnd by congruence.
  split.
  - unfold make_imagehdu. by rewrite decide_False by (by intros ?).
  - intros wcs e Hown. unfold make_imagehdu in Hown.
    rewrite decide_False in Hown by (by intros ?).
    destruct wcs as [w|]; simpl in Hown.
    + destruct (to_header w); simpl in Hown; [done |].
      by destruct (ImageHDU img _).
    + by destruct (ImageHDU img None).
Qed.

Lemma rendered_image_is_packaged_witness :
  @make_imagehdu record_fits (NdArray [1; 1] [10%float]) None
  = Ok (NdArray [1; 1] [10%float], None).
Proof.
  destruct (@rendered_image_is_packaged flat_ops record_fits [1; 1] one_source
    1%float two_params
    (@make_model_sources_image flat_ops (np.Shape [1; 1]) one_source 1%float
       two_params).1
    (NdArray [1; 1] [10%float])) as [Hhdu _]; [by vm_compute |].
  by rewrite Hhdu.
Defined.

(** ** The example images *)

Lemma broadcasts_refl (dims : list Z) : np.broadcasts dims dims = true.
Proof.
  unfold np.broadcasts. induction (reverse dims) as [|d l IH]; simpl; [done |].
  by rewrite bool_decide_eq_true_2, IH.
Qed.

Lemma propagated_weaken (cs cs' : list string) (e : raised) :
  cs ⊆ cs' → propagated cs e → propagated cs' e.
Proof. intros Hsub (callee & e' & -> & Hin). exists callee, e'. auto. Qed.

Section ExampleFacts.
Context `{ModelOps} `{RandomOps} `{!NoiseOps}.

(** Gaussian noise with its mean and standard deviation given: an array of
    floats of the shape, or an exception of the random source. *)
Lemma gaussian_noise_outcome (dims : list Z) (mu sd : float)
    (random_state : seed) :
  match make_noise_image dims "gaussian" (Some mu) (Some sd) random_state with
  | Ok img =>
      ∃ a, img = FloatImage a ∧ shape a = dims
           ∧ length (data a) = Z.to_nat (np.size dims)
  | Err e => propagated ["check_random_state"; "RandomState.normal"] e
  end.
Proof.
  unfold make_noise_image.
  destruct (check_random_state random_state) as [e|prng0]; simpl.
  { exists "check_random_state", e. split; [done | set_solver]. }
  destruct (draw_count_cases "RandomState.normal" dims) as [[n Hn] | [e Hn]];
    rewrite Hn; simpl.
  - destruct (normal prng0 mu sd n) as [e|[vs prng']] eqn:Hdraws; simpl.
    + exists "RandomState.normal", e. split; [done | set_solver].
    + apply draw_count_ok in Hn as ->.
      destruct (normal_draws _ _ _ _ _ _ Hdraws) as [Hlen _].
      by exists (NdArray dims vs).
  - exists "RandomState.normal", e. split; [done | set_solver].
Qed.

(** The background and the noise added to rendered sources. *)
Lemma background_and_noise (dims : list Z) (sd : float) (random_state : seed)
    (noise : bool) (sources : ndarray float) :
  shape sources = dims → length (data sources) = Z.to_nat (np.size dims) →
  image_or_propagated dims ["check_random_state"; "RandomState.normal"]
    (if noise then
       let? drawn := make_noise_image dims "gaussian" (Some 0%float) (Some sd)
                       random_state in
       np.iadd (add_scalar sources 5%float) (noise_values drawn)
     else Ok (add_scalar sources 5%float)).
Proof.
  intros Hs Hl. unfold image_or_propagated. destruct noise.
  - pose proof (gaussian_noise_outcome dims 0%float sd random_state) as Hnoise.
    destruct (make_noise_image _ _ _ _ _) as [img|e]; simpl; [| done].
    destruct Hnoise as (a & -> & Ha & _). simpl.
    unfold np.iadd. simpl. rewrite Ha, Hs, broadcasts_refl. simpl.
    by rewrite length_imap, length_fmap.
  - simpl. by rewrite length_fmap.
Qed.

Lemma make_random_gaussians_table_errors (n_sources : nat)
    (flux_range xmean_range ymean_range xstddev_range ystddev_range
       : float * float)
    (amplitude_range : option (float * float)) (random_state : seed)
    (e : raised) :
  make_random_gaussians_table n_sources flux_range xmean_range ymean_range
    xstddev_range ystddev_range amplitude_range random_state = Err e →
  propagated ["check_random_state"; "RandomState.uniform"] e.
Proof.
  unfold make_random_gaussians_table, draw_column.
  destruct (check_random_state random_state) as [e'|p0]; simpl.
  { intros [= <-]. exists "check_random_state", e'. split; [done | set_solver]. }
  assert (∀ e', propagated ["check_random_state"; "RandomState.uniform"]
                  (Inside "RandomState.uniform" e')) as Hu.
  { intros e'. eexists _, _. split; [done | set_solver]. }
  destruct amplitude_range as [amplitude_range|]; simpl.
  - destruct (uniform p0 _ _ _) as [?|[c1 p1]]; simpl; [by intros [= <-] |].
    destruct (uniform p1 _ _ _) as [?|[c2 p2]]; simpl; [by intros [= <-] |].
    destruct (uniform p2 _ _ _) as [?|[c3 p3]]; simpl; [by intros [= <-] |].
    destruct (uniform p3 _ _ _) as [?|[c4 p4]]; simpl; [by intros [= <-] |].
    destruct (uniform p4 _ _ _) as [?|[c5 p5]]; simpl; [by intros [= <-] |].
    by destruct (uniform p5 _ _ _) as [?|[c6 p6]]; simpl; [intros [= <-] |].
  - destruct (uniform p0 _ _ _) as [?|[c1 p1]]; simpl; [by intros [= <-] |].
    destruct (uniform p1 _ _ _) as [?|[c2 p2]]; simpl; [by intros [= <-] |].
    destruct (uniform p2 _ _ _) as [?|[c3 p3]]; simpl; [by intros [= <-] |].
    destruct (uniform p3 _ _ _) as [?|[c4 p4]]; simpl; [by intros [= <-] |].
    destruct (uniform p4 _ _ _) as [?|[c5 p5]]; simpl; [by intros [= <-] |].
    by destruct (uniform p5 _ _ _) as [?|[c6 p6]]; simpl; [intros [= <-] |].
Qed.

(** Rendering a well-formed table with a row on a two-dimensional shape. *)
Lemma rendered_or_propagated (ny nx : Z) (t : Table) (oversample : float)
    (m : Model) :
  0 ≤ ny → 0 ≤ nx → table_wf t → (0 < table_len t)%nat →
  image_or_propagated [ny; nx] ["model"; "discretize_model"; "numpy.add"]
    (make_model_sources_image (np.Shape [ny; nx]) t oversample m).2.
Proof.
  intros Hny Hnx Hwf Hrows.
  pose proof (make_model_sources_image_errors ny nx t oversample m Hny Hnx
                Hwf (or_introl Hrows)) as Herr.
  destruct (make_model_sources_image (np.Shape [ny; nx]) t oversample m)
    as [m' [img|e]] eqn:Hcall; simpl in *.
  - apply make_model_sources_image_shape in Hcall as (? & _ & ?). by split.
  - by apply Herr.
Qed.

Lemma image_or_propagated_bind (dims : list Z) (cs1 cs2 cs : list string)
    (r : result (ndarray float)) (k : ndarray float → result (ndarray float)) :
  cs1 ⊆ cs → cs2 ⊆ cs →
  image_or_propagated dims cs1 r →
  (∀ a, shape a = dims → length (data a) = Z.to_nat (np.size dims) →
        image_or_propagated dims cs2 (k a)) →
  image_or_propagated dims cs (bind r k).
Proof.
  intros Hsub1 Hsub2 Hr Hk. unfold image_or_propagated in *.
  destruct r as [a|e]; simpl in *.
  - destruct Hr as [Hs Hl]. specialize (Hk a Hs Hl).
    destruct (k a); simpl in *; [done | by apply (propagated_weaken cs2)].
  - by apply (propagated_weaken cs1).
Qed.

End ExampleFacts.

(** X23: [make_4gaussians_image], with or without noise, returns an image
    of 100 rows and 200 columns unless a collaborator raises: its table has
    an [amplitude] column and four well-formed rows, so that neither the
    adapter nor the renderer nor the noise routine raises an exception of its
    own. *)
Theorem four_gaussians_image_outcome `{ModelOps} `{RandomOps} `{!NoiseOps}
    (noise : bool) :
  image_or_propagated [100; 200]
    ["model"; "discretize_model"; "numpy.add"; "check_random_state";
     "RandomState.normal"]
    (make_4gaussians_image noise).
Proof.
  unfold make_4gaussians_image, make_gaussian_sources_image.
  rewrite (normalize_amplitude [four_gaussians] 0 four_gaussians eq_refl);
    try (apply (bool_decide_unpack _); by vm_compute).
  change (deref [four_gaussians] 0) with four_gaussians.
  apply (image_or_propagated_bind [100; 200]
           ["model"; "discretize_model"; "numpy.add"]
           ["check_random_state"; "RandomState.normal"]); [apply (bool_decide_unpack _); by vm_compute.. | |].
  - apply rendered_or_propagated; [lia | lia | | simpl; lia].
    apply (bool_decide_unpack _). by vm_compute.
  - intros sources Hs Hl. by apply background_and_noise.
Qed.

(** X24: when every uniform draw of [n] values has [n] values,
    [make_100gaussians_image] returns an image of 300 rows and 500 columns
    unless a collaborator raises: the table it draws has a [flux] column and
    the widths the conversion needs, and its hundred rows are well formed. *)
Theorem hundred_gaussians_image_outcome `{ModelOps} `{RandomOps} `{!NoiseOps}
    (noise : bool) :
  (∀ p lower upper n col p',
     uniform p lower upper n = inr (col, p') → length col = n) →
  image_or_propagated [300; 500]
    ["check_random_state"; "RandomState.uniform"; "model"; "discretize_model";
     "numpy.add"; "RandomState.normal"]
    (make_100gaussians_image noise).
Proof.
  intros Hlen. unfold make_100gaussians_image.
  destruct (make_random_gaussians_table _ _ _ _ _ _ _ _) as [table|e] eqn:Ht;
    unfold bind at 1; cbv beta iota.
  2: { apply (propagated_weaken ["check_random_state"; "RandomState.uniform"]);
         [apply (bool_decide_unpack _); by vm_compute |].
       by eapply make_random_gaussians_table_errors. }
  destruct (make_random_gaussians_table_ok _ _ _ _ _ _ _ _ _ Ht)
    as (p0 & p1 & p2 & p3 & p4 & p5 & p6 & c1 & c2 & c3 & c4 & c5 & c6
        & L1%Hlen & L2%Hlen & L3%Hlen & L4%Hlen & L5%Hlen & L6%Hlen & ->).
  unfold make_gaussian_sources_image.
  set (table := ("flux", c1) :: _).
  rewrite (normalize_flux [table] 0 table c1 c4 c5); [| done..].
  subst table.
  rewrite deref_fresh.
  set (amplitude := col_div c1 _).
  assert (length amplitude = 100%nat) as Ha.
  { unfold amplitude, col_div, col_mul, scalar_mul.
    rewrite !length_zip_with, length_fmap. lia. }
  simpl assoc_del.
  apply (image_or_propagated_bind [300; 500]
           ["model"; "discretize_model"; "numpy.add"]
           ["check_random_state"; "RandomState.normal"]); [apply (bool_decide_unpack _); by vm_compute.. | |].
  - apply rendered_or_propagated; [lia | lia | | unfold table_len; simpl; lia].
    split; [apply (bool_decide_unpack _); by vm_compute |].
    unfold table_len. simpl.
    repeat (apply Forall_cons_2; [simpl; congruence |]). apply Forall_nil_2.
  - intros sources Hs Hl. by apply background_and_noise.
Qed.

Lemma hundred_gaussians_image_outcome_witness :
  image_or_propagated [300; 500]
    ["check_random_state"; "RandomState.uniform"; "model"; "discretize_model";
     "numpy.add"; "RandomState.normal"]
    (@make_100gaussians_image flat_ops counter_ops counter_noise false).
Proof.
  apply (@hundred_gaussians_image_outcome flat_ops counter_ops counter_noise).
  intros p lower upper n col p' [= <- _]. apply length_replicate.
Defined.

(** ** The image as a sum over the sources *)

Section SumOfSources.
Context `{ModelOps}.
Implicit Types (t : Table) (m : Model).

Lemma row_model_outside t ps i m q :
  q ∉ ps → row_model t ps i m !! q = m !! q.
Proof.
  unfold row_model. revert m.
  induction ps as [|p ps IH]; intros m Hq; simpl; [done |].
  apply not_elem_of_cons in Hq as [Hne Hq]. rewrite IH by done.
  destruct (Row_getitem t i p); [| done].
  unfold setattr. by rewrite lookup_insert_ne.
Qed.

Lemma row_model_inside t ps i m p v :
  p ∈ ps → Row_getitem t i p = Ok v → row_model t ps i m !! p = Some v.
Proof.
  unfold row_model. revert m.
  induction ps as [|p' ps IH] using rev_ind; intros m Hp Hv;
    [by inversion Hp |].
  rewrite foldl_snoc. destruct (decide (p = p')) as [<- | Hne].
  - rewrite Hv. unfold setattr. apply lookup_insert_eq.
  - apply elem_of_app in Hp as [Hp | Hp%list_elem_of_singleton]; [| done].
    destruct (Row_getitem t i p'); [| by apply IH].
    unfold setattr. rewrite lookup_insert_ne by done. by apply IH.
Qed.

(** The evaluation reads the model only. *)
Lemma evaluate_model image_shape oversample x y st st' :
  model st = model st' →
  evaluate image_shape oversample x y st
  = evaluate image_shape oversample x y st'.
Proof. intros Hm. unfold evaluate. by rewrite Hm. Qed.

(** When a row is rendered the model is the pre-call model with the values
    of that row, whatever the rows before left in it. *)
Lemma render_source_as_row_model image_shape t oversample ps x y m i st :
  table_wf t → (i < table_len t)%nat → Forall (λ p, p ∈ colnames t) ps →
  (∀ q, q ∉ ps → model st !! q = m !! q) →
  let st' := (render_source image_shape t oversample ps x y i st).1 in
  (∀ q, q ∉ ps → model st' !! q = m !! q)
  ∧ match (render_source image_shape t oversample ps x y i st).2 with
    | Ok _ =>
        (let? r := evaluate image_shape oversample x y
                     (Locals (row_model t ps i m) (image st) None) in
         np.iadd (image st) r) = Ok (image st')
    | Err e =>
        (let? r := evaluate image_shape oversample x y
                     (Locals (row_model t ps i m) (image st) None) in
         np.iadd (image st) r) = Err e
    end.
Proof.
  intros Hwf Hi Hps Hout.
  destruct (set_params_spec t i ps st Hwf Hi Hps)
    as (st1 & Hrun & Himg & _ & Hset & Hkeep).
  assert (model st1 = row_model t ps i m) as Hm.
  { apply map_eq. intros q. destruct (decide (q ∈ ps)) as [Hq | Hq].
    - destruct (Hset q Hq) as (v & Hv & ->). symmetry.
      by apply row_model_inside.
    - rewrite Hkeep, Hout by done. symmetry. by apply row_model_outside. }
  unfold render_source. rewrite Hrun.
  rewrite (evaluate_model _ _ _ _ st1
             (Locals (row_model t ps i m) (image st) None)) by done.
  rewrite Himg.
  destruct (bind (evaluate _ _ _ _ _) _) as [image'|e]; simpl.
  - split; [| done]. intros q Hq. by rewrite Hkeep, Hout.
  - split; [| done]. intros q Hq. by rewrite Hkeep, Hout.
Qed.

Lemma render_sources_as_sum image_shape t oversample ps x y m rows st :
  table_wf t → Forall (λ i, (i < table_len t)%nat) rows →
  Forall (λ p, p ∈ colnames t) ps →
  (∀ q, q ∉ ps → model st !! q = m !! q) →
  sum_of_sources image_shape t oversample ps x y m rows (image st)
  = match for_each (render_source image_shape t oversample ps x y) rows st with
    | (st', Ok _) => Ok (image st')
    | (_, Err e) => Err e
    end.
Proof.
  intros Hwf Hrows Hps. revert st.
  induction rows as [|i rows IH]; intros st Hout; simpl; [done |].
  apply Forall_cons in Hrows as [Hi Hrows].
  destruct (render_source_as_row_model image_shape t oversample ps x y m i st
              Hwf Hi Hps Hout) as [Hout' Hrow].
  destruct (render_source image_shape t oversample ps x y i st)
    as [st' [[]|e]]; simpl in *.
  - destruct (evaluate _ _ _ _ _) as [r|e]; simpl in *; [| done].
    rewrite Hrow. simpl. by apply IH.
  - destruct (evaluate _ _ _ _ _) as [r|e']; simpl in *; [| done].
    by rewrite Hrow.
Qed.

End SumOfSources.

(** X25: on a two-dimensional shape and a well-formed table that has a row
    (or no matched column), the outcome of the renderer is the sum over the
    rows, in order, of the model evaluated with that row's values for the
    matched parameters and the pre-call values for the others: no row is
    rendered with a value of another row, and the first row that cannot be
    evaluated or added gives the exception. *)
Theorem rendered_image_is_sum_of_sources `{ModelOps} (ny nx : Z) (t : Table)
    (oversample : float) (m : Model) :
  0 ≤ ny → 0 ≤ nx → table_wf t →
  (0 < table_len t)%nat ∨ params_to_set_of t m = [] →
  (make_model_sources_image (np.Shape [ny; nx]) t oversample m).2
  = sum_of_sources (np.Shape [ny; nx]) t oversample (params_to_set_of t m)
      (np.index_grid [ny; nx] 1) (np.index_grid [ny; nx] 0) m
      (seq 0 (table_len t))
      (NdArray [ny; nx] (replicate (Z.to_nat (ny * nx)) 0%float)).
Proof.
  intros Hny Hnx Hwf Hrows.
  destruct (init_params_of_spec m (params_to_set_of t m) [])
    as (items & Hinit & Hkeys & Hvals);
    [by apply params_to_set_NoDup | apply params_to_set_in_model
    | intros ? _; apply not_elem_of_nil |].
  simpl in Hinit.
  rewrite (make_model_sources_image_run _ _ _ _ _ _ _ _
             (zeros_2d ny nx Hny Hnx) eq_refl Hinit).
  unfold try_finally.
  assert (Forall (λ i, (i < table_len t)%nat) (seq 0 (table_len t))) as Hseq.
  { apply Forall_forall. intros i Hi'. apply elem_of_seq in Hi'. lia. }
  set (x := np.index_grid [ny; nx] 1). set (y := np.index_grid [ny; nx] 0).
  set (image0 := NdArray [ny; nx] _). set (st0 := Locals m image0 None).
  rewrite (render_sources_as_sum (np.Shape [ny; nx]) t oversample
             (params_to_set_of t m) x y m (seq 0 (table_len t)) st0 Hwf Hseq
             (params_to_set_in_table t m)) by done.
  assert (∃ st2, for_each restore items
            (for_each (render_source (np.Shape [ny; nx]) t oversample
               (params_to_set_of t m) x y) (seq 0 (table_len t)) st0).1
          = (st2, Ok tt)
          ∧ image st2
            = image (for_each (render_source (np.Shape [ny; nx]) t oversample
                       (params_to_set_of t m) x y)
                       (seq 0 (table_len t)) st0).1) as (st2 & Hfin & Himg).
  { destruct (params_to_set_of t m) as [|p0 ps0] eqn:Hps using rev_ind.
    - destruct items; [| done]. by eexists.
    - clear IHps0. destruct Hrows as [Hrows | ?]; [| by destruct ps0].
      eexists. split; [| shelve]. apply (restore_bound _ p0).
      apply render_sources_paramnm; [done | done | | ].
      + rewrite <- Hps. apply params_to_set_in_table.
      + left. destruct (table_len t); [lia | done]. }
  destruct (for_each (render_source _ _ _ _ _ _) _ _) as [st1 r1].
  simpl in *. rewrite Hfin. destruct r1 as [[]|e1]; simpl; [| done].
  by rewrite Himg.
  Unshelve. done.
Qed.

Lemma rendered_image_is_sum_of_sources_witness :
  (@make_model_sources_image flat_ops (np.Shape [1; 2])
     [("amplitude", [10; 11]%float); ("x_mean", [20; 21]%float)] 1%float
     two_params).2
  = Ok (NdArray [1; 2] [21; 21]%float).
Proof.
  rewrite (@rendered_image_is_sum_of_sources flat_ops 1 2
             [("amplitude", [10; 11]%float); ("x_mean", [20; 21]%float)]
             1%float two_params); [by vm_compute | lia | lia | |].
  - apply (bool_decide_unpack _). by vm_compute.
  - left. simpl. lia.
Defined.
